(** * PTY relay supervisor ([scripts/claude-auth-pty.py])

    A shallow embedding of the supervisor script and the properties of its
    relay loop, signal handler and cleanup block.

    The script talks to the operating system through a handful of calls
    ([select], [read], [write], [waitpid], [kill], [close], [execvpe]).
    The embedding keeps the program text and hands every call the answer
    the operating system gives to it: the answers of one pass of the relay
    loop are collected in an [iter_env], the answers of the cleanup block
    in a [final_env].  A run of the parent branch is then a function of a
    script of such answers, and it yields the control outcome of the
    Python code together with the list of calls it made.

    What is taken from the operating system and from Python rather than
    from the script:
    - [waitpid] and [kill] on a child that has been reaped fail with
      [ECHILD] and [ESRCH] (the one piece of process state kept, [reaped]);
    - wait statuses are encoded as on Linux;
    - SIGTERM is delivered while the supervisor waits in [select], and
      Python runs the handler before the call returns.  This is where the
      loop spends its time, but it is a restriction: a signal that lands
      in another call is not part of a run here, and a statement about a
      handler that raises holds for the delivery during [select] only,
      whose [except] clause catches the exception;
    - the except clauses follow Python's exception hierarchy, and the exit
      code of the interpreter is 0 when [main] returns, the argument of
      [sys.exit], or 1 for another uncaught exception.
    The timeout of [select] shows only as a call that reports nothing
    readable. *)

From Stdlib Require Import ZArith List Bool Lia.
From Stdlib.Strings Require Import Byte.
From stdpp Require Import base gmap strings list fin_maps.
Import ListNotations.

Open Scope Z_scope.

(** ** Python exceptions *)

(** The exceptions the script can meet.  [SystemExit] is what [sys.exit]
    raises; it derives from [BaseException] only. *)
Inductive exc : Type :=
| ValueError
| OSError
| FileNotFoundError
| PermissionError
| ProcessLookupError
| ChildProcessError
| SystemExit (code : Z).

(** The classes named in the script's [except] clauses. *)
Inductive exc_class : Type :=
| cls_Exception
| cls_ValueError
| cls_OSError
| cls_PermissionError
| cls_ProcessLookupError
| cls_ChildProcessError.

(** [isinstance e c]: Python's class hierarchy.  [FileNotFoundError],
    [PermissionError], [ProcessLookupError] and [ChildProcessError] are
    subclasses of [OSError]; everything but [SystemExit] is an
    [Exception]. *)
Definition isinstance (e : exc) (c : exc_class) : bool :=
  match c, e with
  | cls_Exception, SystemExit _ => false
  | cls_Exception, _ => true
  | cls_ValueError, ValueError => true
  | cls_OSError, (OSError | FileNotFoundError | PermissionError
                 | ProcessLookupError | ChildProcessError) => true
  | cls_PermissionError, PermissionError => true
  | cls_ProcessLookupError, ProcessLookupError => true
  | cls_ChildProcessError, ChildProcessError => true
  | _, _ => false
  end.

Definition caught_by (cs : list exc_class) (e : exc) : bool :=
  existsb (isinstance e) cs.

(** ** Constants of the [os] and [signal] modules (Linux values) *)

Definition SIGTERM : Z := 15.
Definition WNOHANG : Z := 1.
Definition stdin_fileno : Z := 0.
Definition stdout_fileno : Z := 1.
Definition chunk_size : Z := 4096.

(** Wait statuses are the 16-bit words of [waitpid(2)]; the three
    functions are the C library's macros behind [os.WIFEXITED] and
    [os.WEXITSTATUS]. *)
Definition WIFEXITED (status : Z) : bool := Z.land status 127 =? 0.
Definition WEXITSTATUS (status : Z) : Z := Z.shiftr (Z.land status 65280) 8.
Definition W_EXITCODE (ret sig : Z) : Z := Z.lor (Z.shiftl ret 8) sig.

(** ** Answers of the operating system and the calls made *)

Definition bytes : Type := list byte.

Inductive close_ans : Type := CloseOk | CloseErr.
Inductive read_ans : Type := RdData (data : bytes) | RdErr.
Inductive write_ans : Type := WrOk (written : nat) | WrErr.
Inductive select_ans : Type :=
| SelReady (ready : list Z)
| SelValueError
| SelOSError.
(** [kill(2)] with a valid signal fails with [ESRCH] or [EPERM] only. *)
Inductive kill_ans : Type := KillOk | KillNoProcess | KillNotPermitted.
(** [WaitNone]: the child has not changed state (the pair [(0, 0)] under
    [WNOHANG]; a blocking wait does not return).  [WaitNoChild]: [ECHILD]. *)
Inductive wait_ans : Type :=
| WaitNone
| WaitStatus (status : Z)
| WaitNoChild.

(** A call together with what it returned. *)
Inductive event : Type :=
| EvClose (fd : Z) (r : close_ans)
| EvSignalInstall (sig : Z)
| EvSigterm
| EvKill (pid sig : Z) (r : kill_ans)
| EvSelect (rlist : list Z) (r : select_ans)
| EvRead (fd n : Z) (r : read_ans)
| EvWrite (fd : Z) (data : bytes) (r : write_ans)
| EvWaitpid (pid options : Z) (r : wait_ans).

(** ** State, control outcomes and the monad of the script *)

(** [child_alive] and [fds] are the variables of [main]; [reaped] is the
    one fact about the process table the script depends on: once a
    [waitpid] has returned the child's status, the child is gone. *)
Record pstate : Type := mkState {
  child_alive : bool;
  fds : list Z;
  reaped : bool
}.

(** How a block of statements ends.  [Pending] marks a computation that
    has not ended: the script of answers ran out while the loop was still
    relaying, or a blocking wait does not return. *)
Inductive ctl (A : Type) : Type :=
| Ret (a : A)
| Break
| Continue
| Raise (e : exc)
| Pending.
Arguments Ret {A} a.
Arguments Break {A}.
Arguments Continue {A}.
Arguments Raise {A} e.
Arguments Pending {A}.

Record res (A : Type) : Type := mkRes {
  out : ctl A;
  st : pstate;
  evs : list event
}.
Arguments mkRes {A} out st evs.
Arguments out {A} r.
Arguments st {A} r.
Arguments evs {A} r.

Definition M (A : Type) : Type := pstate -> res A.

(** [after pre r]: the result [r] of a continuation, with the calls made
    before it put in front. *)
Definition after {A} (pre : list event) (r : res A) : res A :=
  mkRes (out r) (st r) (pre ++ evs r).

(** A non-[Ret] outcome carried to another result type. *)
Definition recast {A B} (c : ctl A) : ctl B :=
  match c with
  | Ret _ => Pending
  | Break => Break
  | Continue => Continue
  | Raise e => Raise e
  | Pending => Pending
  end.

#[global] Instance M_ret : MRet M := fun A a s => mkRes (Ret a) s [].

#[global] Instance M_bind : MBind M := fun A B f m s =>
  let r := m s in
  match out r with
  | Ret a => after (evs r) (f a (st r))
  | c => mkRes (recast c) (st r) (evs r)
  end.

Definition emit (e : event) : M unit := fun s => mkRes (Ret tt) s [e].
Definition raise {A} (e : exc) : M A := fun s => mkRes (Raise e) s [].
Definition brk {A} : M A := fun s => mkRes Break s [].
Definition cont {A} : M A := fun s => mkRes Continue s [].
Definition hang {A} : M A := fun s => mkRes Pending s [].

Definition set_child_alive (b : bool) : M unit :=
  fun s => mkRes (Ret tt) (mkState b (fds s) (reaped s)) [].
Definition set_fds (l : list Z) : M unit :=
  fun s => mkRes (Ret tt) (mkState (child_alive s) l (reaped s)) [].
Definition set_reaped : M unit :=
  fun s => mkRes (Ret tt) (mkState (child_alive s) (fds s) true) [].

(** [try: m except cs: h] *)
Definition try_except {A} (m : M A) (cs : list exc_class) (h : exc -> M A) : M A :=
  fun s =>
    let r := m s in
    match out r with
    | Raise e => if caught_by cs e then after (evs r) (h e (st r)) else r
    | _ => r
    end.

(** [try: m finally: f].  The [finally] block runs however [m] ended;
    when it ends normally the outcome of [m] stands, otherwise its own
    outcome replaces that of [m]. *)
Definition try_finally {A} (m : M A) (f : M unit) : M A :=
  fun s =>
    let r := m s in
    match out r with
    | Pending => r
    | c =>
        let r' := f (st r) in
        mkRes
          match out r' with
          | Ret _ => c
          | c' => recast c'
          end
          (st r') (evs r ++ evs r')
    end.

(** [for x in l: body x] *)
Fixpoint for_each {A} (l : list A) (body : A -> M unit) : M unit :=
  match l with
  | [] => mret tt
  | x :: l' => fun s =>
      let r := body x s in
      match out r with
      | Ret _ | Continue => after (evs r) (for_each l' body (st r))
      | Break => mkRes (Ret tt) (st r) (evs r)
      | Raise e => mkRes (Raise e) (st r) (evs r)
      | Pending => mkRes Pending (st r) (evs r)
      end
  end.

(** [l.remove(x)]: drops the first occurrence, [ValueError] when there is
    none. *)
Fixpoint list_remove (x : Z) (l : list Z) : option (list Z) :=
  match l with
  | [] => None
  | y :: l' => if y =? x then Some l'
               else match list_remove x l' with
                    | Some l'' => Some (y :: l'')
                    | None => None
                    end
  end.

Definition fds_remove (x : Z) : M unit := fun s =>
  match list_remove x (fds s) with
  | Some l => set_fds l s
  | None => raise ValueError s
  end.

(** [sys.exit(n)] *)
Definition sys_exit {A} (n : Z) : M A := raise (SystemExit n).

(** ** The calls *)

Definition os_close (fd : Z) (a : close_ans) : M unit :=
  emit (EvClose fd a);;
  match a with
  | CloseOk => mret tt
  | CloseErr => raise OSError
  end.

(** [os.read(fd, n)] returns at most [n] of the bytes at hand. *)
Definition take_chunk (n : Z) (d : bytes) : bytes := firstn (Z.to_nat n) d.
Arguments take_chunk : simpl never.

Definition os_read (fd n : Z) (a : read_ans) : M bytes :=
  match a with
  | RdData d =>
      emit (EvRead fd n (RdData (take_chunk n d)));; mret (take_chunk n d)
  | RdErr => emit (EvRead fd n RdErr);; raise OSError
  end.

Definition os_write (fd : Z) (data : bytes) (a : write_ans) : M nat :=
  emit (EvWrite fd data a);;
  match a with
  | WrOk n => mret n
  | WrErr => raise OSError
  end.

(** [os.kill(pid, sig)]: a child that has been reaped no longer exists. *)
Definition os_kill (pid sig : Z) (a : kill_ans) : M unit := fun s =>
  let a' := if reaped s then KillNoProcess else a in
  (emit (EvKill pid sig a');;
   match a' with
   | KillOk => mret tt
   | KillNoProcess => raise ProcessLookupError
   | KillNotPermitted => raise PermissionError
   end) s.

(** [os.waitpid(pid, options)]: a child that has been reaped cannot be
    waited for again ([ECHILD]); a status that is returned reaps the
    child; without [WNOHANG] the call blocks while the child runs. *)
Definition os_waitpid (pid options : Z) (a : wait_ans) : M (Z * Z) := fun s =>
  let a' := if reaped s then WaitNoChild else a in
  (emit (EvWaitpid pid options a');;
   match a' with
   | WaitNone => if Z.land options WNOHANG =? 0 then hang else mret (0, 0)
   | WaitStatus status => set_reaped;; mret (pid, status)
   | WaitNoChild => raise ChildProcessError
   end) s.

Definition signal_signal (sig : Z) : M unit := emit (EvSignalInstall sig).

(** ** The parent branch of [main] *)

(** What the operating system answers during one pass of the [while]
    loop.  [sigterm] tells whether a SIGTERM reaches the supervisor while
    it sits in [select] (the wait in which the loop spends its time) and
    what the handler's [os.kill] is answered; Python then runs the handler
    before [select] returns.  A SIGTERM that lands outside [select] is not
    scripted. *)
Record iter_env : Type := mkIter {
  sigterm : option kill_ans;
  select_res : select_ans;
  master_read : read_ans;
  stdout_write : write_ans;
  stdin_read : read_ans;
  master_write : write_ans;
  liveness : wait_ans
}.

(** The answers to the three calls of the [finally] block. *)
Record final_env : Type := mkFinal {
  close_res : close_ans;
  kill_res : kill_ans;
  wait_res : wait_ans
}.

Definition is_empty (data : bytes) : bool :=
  match data with
  | [] => true
  | _ :: _ => false
  end.

Section Parent.

Variables master_fd pid : Z.

(** [sigterm_handler(sig, frame)], lines 42-48; neither argument is used. *)
Definition sigterm_handler (sig : Z) (a : kill_ans) : M unit :=
  try_except (os_kill pid SIGTERM a)
    [cls_ProcessLookupError] (fun _ => mret tt);;
  set_child_alive false.

(** [select.select(rlist, [], [], 1.0)]: the descriptors of [rlist] that
    are ready, in the order of [rlist]; the empty list when the timeout
    expires.  A handler that runs during the wait and raises makes the
    call raise. *)
Definition select_select (rlist : list Z) (sig : option kill_ans)
    (a : select_ans) : M (list Z) :=
  match sig with
  | Some ka => emit EvSigterm;; sigterm_handler SIGTERM ka
  | None => mret tt
  end;;
  match a with
  | SelReady ready =>
      let readable := List.filter (fun fd => existsb (Z.eqb fd) ready) rlist in
      emit (EvSelect rlist (SelReady readable));; mret readable
  | SelValueError => emit (EvSelect rlist SelValueError);; raise ValueError
  | SelOSError => emit (EvSelect rlist SelOSError);; raise OSError
  end.

(** The body of [for fd in readable], lines 61-83. *)
Definition dispatch (e : iter_env) (fd : Z) : M unit :=
  if fd =? master_fd then
    try_except
      (data ← os_read master_fd chunk_size (master_read e);
       if is_empty data then set_child_alive false;; brk
       else os_write stdout_fileno data (stdout_write e);; mret tt)
      [cls_OSError]
      (fun _ => set_child_alive false;; brk)
  else if fd =? stdin_fileno then
    try_except
      (data ← os_read stdin_fileno chunk_size (stdin_read e);
       if is_empty data then fds_remove stdin_fileno;; cont
       else os_write master_fd data (master_write e);; mret tt)
      [cls_OSError]
      (fun _ => brk)
  else mret tt.

(** The non-blocking check for the child's exit, lines 86-96. *)
Definition check_child (e : iter_env) : M unit :=
  try_except
    ('(wpid, status) ← os_waitpid pid WNOHANG (liveness e);
     if negb (wpid =? 0) then
       set_child_alive false;;
       if WIFEXITED status then sys_exit (WEXITSTATUS status)
       else sys_exit 1
     else mret tt)
    [cls_ChildProcessError]
    (fun _ => set_child_alive false;; brk).

(** The first half of a pass of the [while] loop, lines 54-83: wait for
    readable descriptors and serve them. *)
Definition relay_once (e : iter_env) : M unit :=
  set_fds [master_fd; stdin_fileno];;
  readable ← try_except
    (select_select [master_fd; stdin_fileno] (sigterm e) (select_res e))
    [cls_ValueError; cls_OSError]
    (fun _ => brk);
  for_each readable (dispatch e).

(** One pass of the [while] loop, lines 54-96. *)
Definition loop_body (e : iter_env) : M unit :=
  relay_once e;;
  check_child e.

(** [while child_alive: ...], one [iter_env] per pass.  When the script of
    answers is used up and [child_alive] still holds, the loop is still
    relaying: [Pending]. *)
Fixpoint relay_loop (envs : list iter_env) : M unit :=
  fun s =>
    if child_alive s then
      match envs with
      | [] => mkRes Pending s []
      | e :: envs' =>
          let r := loop_body e s in
          match out r with
          | Ret _ | Continue => after (evs r) (relay_loop envs' (st r))
          | Break => mkRes (Ret tt) (st r) (evs r)
          | Raise x => mkRes (Raise x) (st r) (evs r)
          | Pending => mkRes Pending (st r) (evs r)
          end
      end
    else mkRes (Ret tt) s [].

(** The [finally] block, lines 99-112. *)
Definition cleanup (f : final_env) : M unit :=
  try_except (os_close master_fd (close_res f))
    [cls_OSError] (fun _ => mret tt);;
  try_except (os_kill pid SIGTERM (kill_res f))
    [cls_ProcessLookupError; cls_PermissionError] (fun _ => mret tt);;
  try_except
    ('(_, status) ← os_waitpid pid 0 (wait_res f);
     if WIFEXITED status then sys_exit (WEXITSTATUS status) else mret tt)
    [cls_ChildProcessError] (fun _ => mret tt).

(** The [try: ... finally: ...] statement, lines 52-112. *)
Definition supervise (envs : list iter_env) (f : final_env) : M unit :=
  try_finally (relay_loop envs) (cleanup f).

(** The parent branch, lines 39-112. *)
Definition parent_branch (slave_fd : Z) (slave_close : close_ans)
    (envs : list iter_env) (f : final_env) : M unit :=
  os_close slave_fd slave_close;;
  set_child_alive true;;
  signal_signal SIGTERM;;
  supervise envs f.

End Parent.

(** The state in which the [try] statement is entered: [child_alive] has
    just been set, the child has not been waited for. *)
Definition entry_state : pstate := mkState true [] false.

(** The exit code of the interpreter once [main] is over: 0 when it
    returns, the low byte of its argument for [sys.exit], 1 for any other
    exception that escapes.  [None]: the process has not exited. *)
Definition exit_code {A} (c : ctl A) : option Z :=
  match c with
  | Ret _ => Some 0
  | Raise (SystemExit n) => Some (Z.land n 255)
  | Raise _ => Some 1
  | Break | Continue | Pending => None
  end.

(** ** The child branch of [main] *)

(** [env = dict(os.environ); env.pop('CLAUDECODE', None);
    env['TERM'] = 'dumb'], lines 29-31. *)
Definition child_env (environ : gmap string string) : gmap string string :=
  <["TERM" := "dumb"]> (delete "CLAUDECODE" environ).

(** [os.execvpe] either replaces the process image, and then never
    returns, or raises [e], whose text is [msg]. *)
Inductive exec_ans : Type :=
| ExecReplaced
| ExecRaises (e : exc) (msg : string).

Inductive child_event : Type :=
| CevSetsid
| CevDup2 (fd fd2 : Z)
| CevClose (fd : Z)
| CevExecvpe (file : string) (args : list string) (env : gmap string string)
| CevStderrWrite (text : string).

(** How the child branch ends: the target runs in its place, the process
    ends through [os._exit], or an exception leaves [main]. *)
Inductive child_end : Type :=
| ChildExec
| ChildOsExit (code : Z)
| ChildUncaught (e : exc).

Definition newline : string := String (Ascii.ascii_of_nat 10) EmptyString.

(** The child branch, lines 23-36. *)
Definition child_branch (master_fd slave_fd : Z) (environ : gmap string string)
    (x : exec_ans) : list child_event * child_end :=
  let env := child_env environ in
  let pre := [CevSetsid; CevDup2 slave_fd 0; CevDup2 slave_fd 1;
              CevDup2 slave_fd 2; CevClose master_fd; CevClose slave_fd;
              CevExecvpe "claude" ["claude"; "auth"; "login"] env] in
  match x with
  | ExecReplaced => (pre, ChildExec)
  | ExecRaises e msg =>
      if isinstance e cls_Exception then
        (pre ++ [CevStderrWrite ("Failed to exec claude: " +:+ msg +:+ newline)],
         ChildOsExit 1)
      else (pre, ChildUncaught e)
  end.


(** ** [main] *)

(** Before line 40 nothing is assigned and the child has just been
    forked. *)
Definition boot_state : pstate := mkState false [] false.

Inductive main_end : Type :=
| MainChild (calls : list child_event) (e : child_end)
| MainParent (r : res unit).

(** [main], given what [pty.openpty()] and [os.fork()] returned: the
    branch for [pid == 0] is the child, the other the parent. *)
Definition main (master_fd slave_fd pid : Z) (environ : gmap string string)
    (x : exec_ans) (slave_close : close_ans) (envs : list iter_env)
    (f : final_env) : main_end :=
  if pid =? 0 then
    let c := child_branch master_fd slave_fd environ x in
    MainChild (fst c) (snd c)
  else
    MainParent
      (parent_branch master_fd pid slave_fd slave_close envs f boot_state).

(** ** Reading the list of calls *)

(** The exit code the script derives from a wait status in the loop. *)
Definition status_code (status : Z) : Z :=
  if WIFEXITED status then WEXITSTATUS status else 1.

(** The wait statuses that were returned, with the options of the call. *)
Fixpoint statuses (l : list event) : list (Z * Z) :=
  match l with
  | [] => []
  | EvWaitpid _ o (WaitStatus status) :: l' => (o, status) :: statuses l'
  | _ :: l' => statuses l'
  end.

(** The descriptors on which [close] was called. *)
Fixpoint closes (l : list event) : list Z :=
  match l with
  | [] => []
  | EvClose fd _ :: l' => fd :: closes l'
  | _ :: l' => closes l'
  end.


(** The descriptor lists handed to [select]. *)
Fixpoint selects (l : list event) : list (list Z) :=
  match l with
  | [] => []
  | EvSelect rlist _ :: l' => rlist :: selects l'
  | _ :: l' => selects l'
  end.

(** ** Predicates on statements and passes *)

(** [keeps I m]: the relation [I] holds between the state before [m], the
    state after it and the calls it made. *)
Definition keeps (I : pstate -> pstate -> list event -> Prop) {A} (m : M A) : Prop :=
  forall s, I s (st (m s)) (evs (m s)).

(** [total m]: [m] always ends. *)
Definition total {A} (m : M A) : Prop := forall s, out (m s) <> Pending.

(** What holds of every statement of the loop before the check for the
    child's exit: nothing is closed, no status is obtained, and
    [child_alive] is never set back to [True]. *)
Definition calm (s s' : pstate) (l : list event) : Prop :=
  closes l = [] /\ statuses l = [] /\ reaped s' = reaped s /\
  (child_alive s' = true -> child_alive s = true).

(** Every [select] is given the master descriptor and stdin. *)
Definition watching (m : Z) (s s' : pstate) (l : list event) : Prop :=
  Forall (fun rlist => rlist = [m; stdin_fileno]) (selects l).

(** [child_running e]: nothing in the pass [e] ends the loop from the
    child's side: no SIGTERM arrives, [select] returns, the terminal has
    output that is written to stdout, and the child has not exited. *)
Definition child_running (e : iter_env) : Prop :=
  sigterm e = None /\
  (exists ready, select_res e = SelReady ready) /\
  (exists x d n, master_read e = RdData (x :: d) /\ stdout_write e = WrOk n) /\
  liveness e = WaitNone.

(** ** Concrete passes

    Descriptor 3 is the master, 4242 the child; the answers to calls that
    a pass does not make are arbitrary. *)

(** SIGTERM arrives during the wait; nothing is readable and the child,
    though signalled, has not yet gone when the loop checks. *)
Definition pass_sigterm : iter_env :=
  mkIter (Some KillOk) (SelReady []) RdErr WrErr RdErr WrErr WaitNone.

(** The cleanup's blocking wait then finds the child killed by SIGTERM. *)
Definition final_killed : final_env :=
  mkFinal CloseOk KillOk (WaitStatus SIGTERM).

(** The child has vanished from the process table: both waits fail. *)
Definition pass_no_child : iter_env :=
  mkIter None (SelReady []) RdErr WrErr RdErr WrErr WaitNoChild.
Definition final_no_child : final_env :=
  mkFinal CloseOk KillNoProcess WaitNoChild.

(** Every step of the cleanup fails: the close, the signal, the wait. *)
Definition final_all_fail : final_env :=
  mkFinal CloseErr KillNotPermitted WaitNoChild.

(** The child exits with code 7 while the loop is idle. *)
Definition pass_child_exits : iter_env :=
  mkIter None (SelReady []) RdErr WrErr RdErr WrErr
    (WaitStatus (W_EXITCODE 7 0)).

(** stdin is at end-of-stream; the child is running and silent. *)
Definition pass_stdin_eof : iter_env :=
  mkIter None (SelReady [0]) RdErr WrErr (RdData []) WrErr WaitNone.

(** stdin is at end-of-stream while the child goes on writing. *)
Definition pass_eof_child_writes : iter_env :=
  mkIter None (SelReady [3; 0]) (RdData ["o"%byte]) (WrOk 1)
    (RdData []) WrErr WaitNone.


(** Both descriptors are readable and both writes succeed. *)
Definition pass_both_ways : iter_env :=
  mkIter None (SelReady [3; 0]) (RdData ["o"%byte]) (WrOk 1)
    (RdData ["j"%byte]) (WrOk 1) WaitNone.

(** stdin is readable and the read raises; the child is running. *)
Definition pass_stdin_read_fails : iter_env :=
  mkIter None (SelReady [0]) (RdData ["o"%byte]) (WrOk 1)
    RdErr WrErr WaitNone.

(** The terminal side fails: the master descriptor is readable and the
    read raises. *)
Definition pass_master_read_fails : iter_env :=
  mkIter None (SelReady [3]) RdErr WrErr RdErr WrErr WaitNone.

(** ** The bytes that pass through and the calls made *)

(** The bytes returned by the reads of [fd], in order. *)
Fixpoint bytes_read (fd : Z) (l : list event) : bytes :=
  match l with
  | [] => []
  | EvRead fd' _ (RdData d) :: l' =>
      if fd' =? fd then d ++ bytes_read fd l' else bytes_read fd l'
  | _ :: l' => bytes_read fd l'
  end.

(** The bytes handed to the writes on [fd], in order. *)
Fixpoint bytes_written (fd : Z) (l : list event) : bytes :=
  match l with
  | [] => []
  | EvWrite fd' d _ :: l' =>
      if fd' =? fd then d ++ bytes_written fd l' else bytes_written fd l'
  | _ :: l' => bytes_written fd l'
  end.

(** The bytes the operating system took from the writes on [fd]. *)
Fixpoint bytes_accepted (fd : Z) (l : list event) : bytes :=
  match l with
  | [] => []
  | EvWrite fd' d (WrOk n) :: l' =>
      if fd' =? fd then firstn n d ++ bytes_accepted fd l'
      else bytes_accepted fd l'
  | _ :: l' => bytes_accepted fd l'
  end.

(** Every write was taken in full. *)
Definition writes_complete (l : list event) : Prop :=
  forall fd d a, In (EvWrite fd d a) l -> a = WrOk (length d).

(** The chunks handed to [write], whatever the descriptor. *)
Fixpoint written_chunks (l : list event) : list (Z * bytes) :=
  match l with
  | [] => []
  | EvWrite fd d _ :: l' => (fd, d) :: written_chunks l'
  | _ :: l' => written_chunks l'
  end.

(** A chunk the loop may write: to stdout or to the master descriptor,
    not empty, at most [chunk_size] bytes. *)
Definition chunk_ok (m : Z) (c : Z * bytes) : Prop :=
  (fst c = stdout_fileno \/ fst c = m) /\
  snd c <> [] /\ Z.of_nat (length (snd c)) <= chunk_size.

(** What is written is what was read, in both directions. *)
Definition faithful (m : Z) (s s' : pstate) (l : list event) : Prop :=
  bytes_written stdout_fileno l = bytes_read m l /\
  bytes_written m l = bytes_read stdin_fileno l /\
  Forall (chunk_ok m) (written_chunks l).

(** A call the supervisor of child [p] with master descriptor [m] may
    make once it has entered the [try] statement. *)
Definition call_ok (m p : Z) (ev : event) : Prop :=
  match ev with
  | EvClose fd _ => fd = m
  | EvSignalInstall _ => False
  | EvSigterm => True
  | EvKill p' sig _ => p' = p /\ sig = SIGTERM
  | EvSelect rlist _ => rlist = [m; stdin_fileno]
  | EvRead fd n _ => (fd = m \/ fd = stdin_fileno) /\ n = chunk_size
  | EvWrite fd _ _ => fd = stdout_fileno \/ fd = m
  | EvWaitpid p' options _ => p' = p /\ (options = WNOHANG \/ options = 0)
  end.

Definition tame (m p : Z) (s s' : pstate) (l : list event) : Prop :=
  Forall (call_ok m p) l.

(** ** Further concrete passes *)

(** The terminal is at end-of-stream while stdin has a byte. *)
Definition pass_master_eof : iter_env :=
  mkIter None (SelReady [3; 0]) (RdData []) WrErr
    (RdData ["i"%byte]) (WrOk 1) WaitNone.

(** The terminal has a byte, and the write to stdout fails. *)
Definition pass_stdout_write_fails : iter_env :=
  mkIter None (SelReady [3; 0]) (RdData ["o"%byte]) WrErr
    (RdData ["i"%byte]) (WrOk 1) WaitNone.

(** [select] fails with a bad descriptor. *)
Definition pass_select_fails : iter_env :=
  mkIter None SelOSError (RdData ["o"%byte]) (WrOk 1)
    (RdData ["i"%byte]) (WrOk 1) (WaitStatus (W_EXITCODE 7 0)).

(** The loop's check finds the child killed by SIGKILL. *)
Definition pass_child_killed : iter_env :=
  mkIter None (SelReady []) RdErr WrErr RdErr WrErr (WaitStatus 9).

(** Every call of the pass fails. *)
Definition pass_all_io_fails : iter_env :=
  mkIter None (SelReady [3; 0]) RdErr WrErr RdErr WrErr WaitNone.

(** SIGTERM arrives and the child may not be signalled. *)
Definition pass_sigterm_refused : iter_env :=
  mkIter (Some KillNotPermitted) (SelReady [3; 0]) (RdData ["o"%byte])
    (WrOk 1) (RdData ["i"%byte]) (WrOk 1) WaitNone.

(** * Properties *)

(** ** Traces and the monad *)

Lemma closes_app l1 l2 : closes (l1 ++ l2) = closes l1 ++ closes l2.
Proof.
  induction l1 as [|ev l1 IH]; [reflexivity|].
  destruct ev; simpl; rewrite IH; reflexivity.
Qed.

Lemma statuses_app l1 l2 : statuses (l1 ++ l2) = statuses l1 ++ statuses l2.
Proof.
  induction l1 as [|ev l1 IH]; [reflexivity|].
  destruct ev as [| | | | | | |p o []]; simpl; rewrite IH; reflexivity.
Qed.

Lemma bind_run {A B} (m : M A) (f : A -> M B) s :
  (m ≫= f) s =
  match out (m s) with
  | Ret a => after (evs (m s)) (f a (st (m s)))
  | c => mkRes (recast c) (st (m s)) (evs (m s))
  end.
Proof. reflexivity. Qed.

Section Keeps.

Variable I : pstate -> pstate -> list event -> Prop.
Hypothesis I_refl : forall s, I s s [].
Hypothesis I_trans : forall s1 s2 s3 l1 l2,
  I s1 s2 l1 -> I s2 s3 l2 -> I s1 s3 (l1 ++ l2).

Lemma keeps_mret {A} (a : A) : keeps I (mret a).
Proof. intros s. apply I_refl. Qed.

Lemma keeps_raise {A} e : keeps I (@raise A e).
Proof. intros s. apply I_refl. Qed.

Lemma keeps_brk {A} : keeps I (@brk A).
Proof. intros s. apply I_refl. Qed.

Lemma keeps_cont {A} : keeps I (@cont A).
Proof. intros s. apply I_refl. Qed.

Lemma keeps_bind {A B} (m : M A) (f : A -> M B) :
  keeps I m -> (forall a, keeps I (f a)) -> keeps I (m ≫= f).
Proof.
  intros Hm Hf s. rewrite bind_run. specialize (Hm s).
  destruct (out (m s)); simpl; try exact Hm.
  eapply I_trans; [exact Hm | apply Hf].
Qed.

Lemma keeps_try_except {A} (m : M A) cs h :
  keeps I m -> (forall e, keeps I (h e)) -> keeps I (try_except m cs h).
Proof.
  intros Hm Hh s. unfold try_except. specialize (Hm s).
  destruct (out (m s)); try exact Hm.
  destruct (caught_by cs e); [|exact Hm].
  simpl. eapply I_trans; [exact Hm | apply Hh].
Qed.

Lemma keeps_for_each {A} (l : list A) body :
  (forall x, keeps I (body x)) -> keeps I (for_each l body).
Proof.
  intros Hb. induction l as [|x l IH]; intros s; simpl; [apply I_refl|].
  specialize (Hb x s).
  destruct (out (body x s)); simpl; try exact Hb;
    (eapply I_trans; [exact Hb | apply IH]).
Qed.

End Keeps.

Lemma calm_refl s : calm s s [].
Proof. repeat split; auto. Qed.

Lemma calm_trans s1 s2 s3 l1 l2 :
  calm s1 s2 l1 -> calm s2 s3 l2 -> calm s1 s3 (l1 ++ l2).
Proof.
  intros (C1 & S1 & R1 & A1) (C2 & S2 & R2 & A2).
  unfold calm. rewrite closes_app, statuses_app, C1, C2, S1, S2.
  repeat split; auto; congruence.
Qed.

Create HintDb script.
#[local] Hint Resolve calm_refl calm_trans : script.

Lemma calm_bind {A B} (m : M A) (f : A -> M B) :
  keeps calm m -> (forall a, keeps calm (f a)) -> keeps calm (m ≫= f).
Proof. apply keeps_bind, calm_trans. Qed.

Lemma calm_try_except {A} (m : M A) cs h :
  keeps calm m -> (forall e, keeps calm (h e)) -> keeps calm (try_except m cs h).
Proof. apply keeps_try_except, calm_trans. Qed.

Lemma calm_for_each {A} (l : list A) body :
  (forall x, keeps calm (body x)) -> keeps calm (for_each l body).
Proof. apply keeps_for_each; [apply calm_refl | apply calm_trans]. Qed.

Lemma calm_pure {A} (c : ctl A) : keeps calm (fun s => mkRes c s []).
Proof. intros s. apply calm_refl. Qed.

Ltac by_cases_on_state :=
  let s := fresh "s" in
  intros s; destruct s as [? ? []]; repeat split; simpl; auto.

Lemma calm_set_child_alive_false : keeps calm (set_child_alive false).
Proof. intros s. repeat split; simpl; auto; discriminate. Qed.

Lemma calm_set_fds l : keeps calm (set_fds l).
Proof. by_cases_on_state. Qed.

Lemma calm_fds_remove x : keeps calm (fds_remove x).
Proof.
  intros s. unfold fds_remove.
  destruct (list_remove x (fds s)); repeat split; simpl; auto.
Qed.

Lemma calm_os_read fd n a : keeps calm (os_read fd n a).
Proof. destruct a; by_cases_on_state. Qed.

Lemma calm_os_write fd d a : keeps calm (os_write fd d a).
Proof. destruct a; by_cases_on_state. Qed.

Lemma calm_os_kill p sg a : keeps calm (os_kill p sg a).
Proof. destruct a; by_cases_on_state. Qed.

#[local] Hint Resolve calm_set_child_alive_false calm_set_fds calm_fds_remove calm_os_read
  calm_os_write calm_os_kill : script.
#[local] Hint Extern 1 (keeps calm (mret _)) => apply calm_pure : script.
#[local] Hint Extern 1 (keeps calm brk) => apply calm_pure : script.
#[local] Hint Extern 1 (keeps calm cont) => apply calm_pure : script.
#[local] Hint Extern 1 (keeps calm (raise _)) => apply calm_pure : script.

Ltac calm_step :=
  lazymatch goal with
  | |- keeps calm (_ ≫= _) => apply calm_bind; [|intros ?]
  | |- keeps calm (try_except _ _ _) => apply calm_try_except; [|intros ?]
  | |- keeps calm (for_each _ _) => apply calm_for_each; intros ?
  | |- keeps calm (if ?b then _ else _) => destruct b
  | |- keeps calm (match ?x with _ => _ end) => destruct x
  end.

Ltac calm_auto := repeat calm_step; auto with script.

Lemma calm_sigterm_handler p sg a : keeps calm (sigterm_handler p sg a).
Proof. unfold sigterm_handler. calm_auto. Qed.

Lemma calm_select_select p rl sg a : keeps calm (select_select p rl sg a).
Proof.
  unfold select_select. calm_auto; try apply calm_sigterm_handler;
    by_cases_on_state.
Qed.

Lemma calm_dispatch m e fd : keeps calm (dispatch m e fd).
Proof. unfold dispatch. calm_auto. Qed.

Lemma total_bind {A B} (m : M A) (f : A -> M B) :
  total m -> (forall a, total (f a)) -> total (m ≫= f).
Proof.
  intros Hm Hf s. rewrite bind_run. specialize (Hm s).
  destruct (out (m s)); simpl; try discriminate; [apply Hf | congruence].
Qed.

Lemma total_try_except {A} (m : M A) cs h :
  total m -> (forall e, total (h e)) -> total (try_except m cs h).
Proof.
  intros Hm Hh s. unfold try_except. specialize (Hm s).
  destruct (m s) as [[a| | |x|] s1 l1]; simpl in *; try exact Hm.
  destruct (caught_by cs x); simpl; [apply Hh | exact Hm].
Qed.

Lemma total_for_each {A} (l : list A) body :
  (forall x, total (body x)) -> total (for_each l body).
Proof.
  intros Hb. induction l as [|x l IH]; intros s; simpl; [discriminate|].
  specialize (Hb x s).
  destruct (out (body x s)); simpl; try discriminate; try apply IH; congruence.
Qed.

Lemma total_mret {A} (a : A) : total (mret a).
Proof. intros s. discriminate. Qed.

Lemma total_raise {A} e : total (@raise A e).
Proof. intros s. discriminate. Qed.

Lemma total_brk {A} : total (@brk A).
Proof. intros s. discriminate. Qed.

Lemma total_cont {A} : total (@cont A).
Proof. intros s. discriminate. Qed.

Ltac total_prim :=
  let s := fresh "s" in
  intros s; destruct s as [? ? []]; simpl; discriminate.

Lemma total_set_child_alive b : total (set_child_alive b).
Proof. total_prim. Qed.

Lemma total_set_fds l : total (set_fds l).
Proof. total_prim. Qed.

Lemma total_fds_remove x : total (fds_remove x).
Proof.
  intros s. unfold fds_remove.
  destruct (list_remove x (fds s)); simpl; discriminate.
Qed.

Lemma total_os_read fd n a : total (os_read fd n a).
Proof. destruct a; total_prim. Qed.

Lemma total_os_write fd d a : total (os_write fd d a).
Proof. destruct a; total_prim. Qed.

Lemma total_os_kill p sg a : total (os_kill p sg a).
Proof. destruct a; total_prim. Qed.

Lemma total_emit ev : total (emit ev).
Proof. total_prim. Qed.

(** With [WNOHANG] the wait returns at once. *)
Lemma total_os_waitpid_nohang p a : total (os_waitpid p WNOHANG a).
Proof. destruct a; total_prim. Qed.

#[local] Hint Resolve total_set_child_alive total_set_fds total_fds_remove total_os_read
  total_os_write total_os_kill total_emit total_os_waitpid_nohang : script.
#[local] Hint Resolve total_mret total_raise total_brk total_cont : script.
#[local] Hint Extern 1 (total (sys_exit _)) => apply total_raise : script.

Ltac total_step :=
  lazymatch goal with
  | |- total (_ ≫= _) => apply total_bind; [|intros ?]
  | |- total (try_except _ _ _) => apply total_try_except; [|intros ?]
  | |- total (for_each _ _) => apply total_for_each; intros ?
  | |- total (if ?b then _ else _) => destruct b
  | |- total (match ?x with _ => _ end) => destruct x
  end.

Ltac total_auto := repeat total_step; auto with script.

Lemma total_sigterm_handler p sg a : total (sigterm_handler p sg a).
Proof. unfold sigterm_handler. total_auto. Qed.

Lemma total_select_select p rl sg a : total (select_select p rl sg a).
Proof. unfold select_select. total_auto. apply total_sigterm_handler. Qed.

Lemma total_dispatch m e fd : total (dispatch m e fd).
Proof. unfold dispatch. total_auto. Qed.

Lemma total_check_child p e : total (check_child p e).
Proof. unfold check_child. total_auto. Qed.

Lemma calm_relay_once m p e : keeps calm (relay_once m p e).
Proof.
  unfold relay_once. calm_auto; auto using calm_select_select, calm_dispatch.
Qed.

Lemma total_relay_once m p e : total (relay_once m p e).
Proof.
  unfold relay_once. total_auto;
    auto using total_select_select, total_dispatch.
Qed.

(** Unfolds the script's statements and the monad, leaving the arithmetic
    on descriptors and statuses folded. *)
Ltac run_script :=
  cbv beta iota zeta delta
    [loop_body relay_once check_child dispatch select_select sigterm_handler cleanup
     supervise try_finally try_except for_each mbind mret M_bind M_ret
     os_close os_read os_write os_kill os_waitpid signal_signal emit raise
     brk cont hang sys_exit set_child_alive set_fds set_reaped fds_remove
     list_remove after recast caught_by isinstance existsb orb negb
     out st evs child_alive fds reaped List.filter app
     statuses closes status_code
     sigterm select_res master_read stdout_write stdin_read master_write
     liveness close_res kill_res wait_res].

Lemma check_child_run p e s :
  p <> 0 ->
  check_child p e s =
  match (if reaped s then WaitNoChild else liveness e) with
  | WaitNone => mkRes (Ret tt) s [EvWaitpid p WNOHANG WaitNone]
  | WaitStatus status =>
      mkRes (Raise (SystemExit (status_code status)))
        (mkState false (fds s) true)
        [EvWaitpid p WNOHANG (WaitStatus status)]
  | WaitNoChild =>
      mkRes Break (mkState false (fds s) (reaped s))
        [EvWaitpid p WNOHANG WaitNoChild]
  end.
Proof.
  intros Hp. apply Z.eqb_neq in Hp.
  destruct s as [al fs []], e as [? ? ? ? ? ? [|status|]]; try reflexivity.
  run_script. rewrite Hp. run_script.
  destruct (WIFEXITED status); reflexivity.
Qed.

Lemma total_loop_body m p e : total (loop_body m p e).
Proof.
  unfold loop_body. total_auto;
    auto using total_relay_once, total_check_child.
Qed.

(** One pass of the loop: nothing is closed; either no status is
    obtained, or the check obtains one and the pass ends in [sys.exit]. *)
Lemma loop_body_spec m p e s :
  p <> 0 ->
  let r := loop_body m p e s in
  closes (evs r) = [] /\
  ((statuses (evs r) = [] /\ reaped (st r) = reaped s) \/
   (exists status,
      statuses (evs r) = [(WNOHANG, status)] /\
      out r = Raise (SystemExit (status_code status)) /\
      reaped (st r) = true /\ reaped s = false)) /\
  (child_alive (st r) = true -> child_alive s = true).
Proof.
  intros Hp r. subst r. unfold loop_body. rewrite bind_run.
  destruct (calm_relay_once m p e s) as (C & S & R & A).
  destruct (relay_once m p e s) as [o s1 l1]; simpl in *.
  destruct o; simpl; auto.
  rewrite check_child_run by exact Hp. rewrite <- R.
  destruct (reaped s1) eqn:Hr; [|destruct (liveness e)]; simpl;
    rewrite closes_app, statuses_app, C, S; simpl;
    (split; [reflexivity|split; [|auto; discriminate]]); eauto 8.
Qed.

(** The loop as a whole: nothing is closed, and a status is obtained at
    most once, by the pass that then leaves through [sys.exit]. *)
Lemma relay_loop_spec m p envs s :
  p <> 0 ->
  let r := relay_loop m p envs s in
  closes (evs r) = [] /\
  ((statuses (evs r) = [] /\ reaped (st r) = reaped s) \/
   (exists status,
      statuses (evs r) = [(WNOHANG, status)] /\
      out r = Raise (SystemExit (status_code status)) /\
      reaped (st r) = true /\ reaped s = false)).
Proof.
  intros Hp. revert s. induction envs as [|e envs IH]; intros s; simpl.
  - destruct (child_alive s); simpl; auto.
  - destruct (child_alive s); simpl; auto.
    destruct (loop_body_spec m p e s Hp) as (C & S & _).
    destruct (loop_body m p e s) as [o s1 l1]; simpl in *.
    assert (Hquiet : statuses l1 = [] -> reaped s1 = reaped s).
    { intros E. destruct S as [[_ ?]|(? & E' & _)]; [auto|congruence]. }
    destruct (IH s1) as (C' & S').
    destruct S as [[S R]|(status & S & O & R & R0)].
    + destruct o; simpl; auto;
        rewrite closes_app, statuses_app, C, C', S; simpl;
        rewrite <- R; auto.
    + subst o; simpl. eauto 8.
Qed.

(** The [finally] block, call by call. *)
Lemma cleanup_run m p f s :
  let k := if reaped s then KillNoProcess else kill_res f in
  let w := if reaped s then WaitNoChild else wait_res f in
  cleanup m p f s =
  mkRes
    match w with
    | WaitNone => Pending
    | WaitStatus status =>
        if WIFEXITED status then Raise (SystemExit (WEXITSTATUS status))
        else Ret tt
    | WaitNoChild => Ret tt
    end
    match w with
    | WaitStatus _ => mkState (child_alive s) (fds s) true
    | _ => s
    end
    [EvClose m (close_res f); EvKill p SIGTERM k; EvWaitpid p 0 w].
Proof.
  destruct s as [al fs []], f as [[] [] [|status|]]; try reflexivity;
    run_script; destruct (WIFEXITED status); reflexivity.
Qed.

(** A status that comes with a call is among [statuses]. *)
Lemma statuses_In p o status l :
  In (EvWaitpid p o (WaitStatus status)) l -> In (o, status) (statuses l).
Proof.
  induction l as [|ev l IH]; simpl; [tauto|].
  intros [->|H]; [left; reflexivity|].
  destruct ev as [| | | | | | |? ? []]; simpl; auto.
Qed.

(** Exit codes survive the trip through a wait status and [sys.exit]. *)
Lemma exit_status_roundtrip n :
  0 <= n <= 255 ->
  WIFEXITED (W_EXITCODE n 0) = true /\
  WEXITSTATUS (W_EXITCODE n 0) = n /\
  Z.land n 255 = n.
Proof.
  intros Hn.
  assert (H : forallb (fun k =>
            let n := Z.of_nat k in
            WIFEXITED (W_EXITCODE n 0)
            && (WEXITSTATUS (W_EXITCODE n 0) =? n)
            && (Z.land n 255 =? n)) (seq 0 256) = true)
    by (vm_compute; reflexivity).
  rewrite forallb_forall in H.
  specialize (H (Z.to_nat n)). rewrite Z2Nat.id in H by lia.
  assert (Hin : In (Z.to_nat n) (seq 0 256)) by (apply in_seq; lia).
  apply H in Hin. apply andb_prop in Hin as [Hin H3].
  apply andb_prop in Hin as [H1 H2].
  apply Z.eqb_eq in H2, H3. auto.
Qed.

(** The whole [try]/[finally] statement.  The cleanup follows the loop's
    calls; at most one status is ever obtained, and it settles the
    outcome: a normal exit is passed on by either wait, any other status
    gives 1 when the loop's check obtained it. *)
Lemma supervise_spec m p envs f s :
  p <> 0 ->
  let r := supervise m p envs f s in
  statuses (evs r) = [] \/
  exists o status,
    statuses (evs r) = [(o, status)] /\
    (o = WNOHANG \/ o = 0) /\
    (WIFEXITED status = true ->
     out r = Raise (SystemExit (WEXITSTATUS status))) /\
    (o = WNOHANG -> out r = Raise (SystemExit (status_code status))).
Proof.
  intros Hp r. subst r. unfold supervise, try_finally.
  destruct (relay_loop_spec m p envs s Hp) as (_ & S).
  destruct (relay_loop m p envs s) as [o1 s1 l1]; simpl in *.
  rewrite cleanup_run.
  destruct S as [[S R]|(status & S & O & R & R0)].
  - destruct (if reaped s1 then WaitNoChild else wait_res f) as [|status|];
      destruct o1; simpl; rewrite ?statuses_app, ?S; simpl; auto;
      right; exists 0, status;
      (split; [reflexivity|split; [auto|split]]);
      try (intros Hx; rewrite Hx; reflexivity);
      intros Hx; discriminate.
  - subst o1. rewrite R. simpl. right. exists WNOHANG, status.
    rewrite statuses_app, S. simpl.
    split; [reflexivity|split; [auto|split]]; [|reflexivity].
    intros Hx. unfold status_code. rewrite Hx. reflexivity.
Qed.

(** A run in which a wait returned the status of a normal exit ends in
    [sys.exit] with the child's exit status. *)
Lemma exited_status_decides m p envs f s o status :
  p <> 0 ->
  In (EvWaitpid p o (WaitStatus status)) (evs (supervise m p envs f s)) ->
  WIFEXITED status = true ->
  out (supervise m p envs f s) = Raise (SystemExit (WEXITSTATUS status)) /\
  statuses (evs (supervise m p envs f s)) = [(o, status)] /\
  (o = WNOHANG \/ o = 0).
Proof.
  intros Hp Hin Hex. apply statuses_In in Hin.
  destruct (supervise_spec m p envs f s Hp) as [E|(o' & st' & E & Ho & H1 & _)];
    rewrite E in Hin; simpl in Hin; [tauto|].
  destruct Hin as [Hin|[]]. inversion Hin; subst. auto.
Qed.

(** A chunk is empty exactly when no byte is at hand. *)
Lemma is_empty_take_chunk d : is_empty (take_chunk chunk_size d) = is_empty d.
Proof.
  destruct d as [|x d]; unfold take_chunk.
  - destruct (Z.to_nat chunk_size); reflexivity.
  - destruct (Z.to_nat chunk_size) eqn:E; [|reflexivity].
    unfold chunk_size in E. lia.
Qed.

#[local] Opaque take_chunk.

Lemma supervise_run m p envs f s :
  let r := relay_loop m p envs s in
  supervise m p envs f s =
  match out r with
  | Pending => r
  | c =>
      let w := if reaped (st r) then WaitNoChild else wait_res f in
      mkRes
        match w with
        | WaitNone => Pending
        | WaitStatus status =>
            if WIFEXITED status then Raise (SystemExit (WEXITSTATUS status))
            else c
        | WaitNoChild => c
        end
        match w with
        | WaitStatus _ => mkState (child_alive (st r)) (fds (st r)) true
        | _ => st r
        end
        (evs r ++
         [EvClose m (close_res f);
          EvKill p SIGTERM (if reaped (st r) then KillNoProcess else kill_res f);
          EvWaitpid p 0 w])
  end.
Proof.
  intros r. subst r. unfold supervise, try_finally.
  destruct (relay_loop m p envs s) as [o1 s1 l1]; simpl.
  rewrite cleanup_run.
  destruct o1; try reflexivity; simpl;
    destruct (if reaped s1 then WaitNoChild else wait_res f) as [|status|];
    try reflexivity; destruct (WIFEXITED status); reflexivity.
Qed.

(** What [select] reports readable among the two descriptors. *)
Lemma readable_cases m ready :
  let r := List.filter (fun fd => existsb (Z.eqb fd) ready) [m; stdin_fileno] in
  r = [] \/ r = [m] \/ r = [stdin_fileno] \/ r = [m; stdin_fileno].
Proof.
  simpl. destruct (existsb (Z.eqb m) ready), (existsb (Z.eqb stdin_fileno) ready);
    auto.
Qed.

(** Serving the master descriptor while the child writes: the chunk goes
    to stdout and nothing else changes. *)
Lemma dispatch_master_running m e s :
  child_running e ->
  exists l, dispatch m e m s = mkRes (Ret tt) s l.
Proof.
  intros (_ & _ & (x & d & n & Hm & Hw) & _).
  unfold dispatch. rewrite Z.eqb_refl, Hm, Hw.
  pose proof (is_empty_take_chunk (x :: d)) as He.
  unfold os_read. revert He.
  generalize (take_chunk chunk_size (x :: d)). intros chunk He.
  unfold try_except. rewrite !bind_run. cbn. rewrite He. cbn. eauto.
Qed.

(** Serving stdin never touches [child_alive] or the child. *)
Lemma dispatch_stdin_cases m e s :
  m <> stdin_fileno -> fds s = [m; stdin_fileno] ->
  exists o s1 l,
    dispatch m e stdin_fileno s = mkRes o s1 l /\
    (o = Ret tt \/ o = Continue \/ o = Break) /\
    child_alive s1 = child_alive s /\ reaped s1 = reaped s.
Proof.
  intros Hm Hf. apply Z.eqb_neq in Hm.
  unfold dispatch. rewrite (Z.eqb_sym stdin_fileno m), Hm, Z.eqb_refl.
  destruct (stdin_read e) as [d|]; [|cbn; eauto 10].
  unfold os_read. generalize (take_chunk chunk_size d). intros chunk.
  unfold try_except. rewrite !bind_run. cbn.
  destruct (is_empty chunk).
  - unfold fds_remove. rewrite bind_run. cbn. rewrite Hf. cbn.
    rewrite Hm. cbn. eauto 10.
  - destruct (master_write e); cbn; eauto 10.
Qed.

(** With no signal and a [select] that returns, the first half of a pass
    is the [for] loop over the readable descriptors. *)
Lemma relay_once_select m p e s ready :
  sigterm e = None -> select_res e = SelReady ready ->
  let readable :=
    List.filter (fun fd => existsb (Z.eqb fd) ready) [m; stdin_fileno] in
  relay_once m p e s =
  after [EvSelect [m; stdin_fileno] (SelReady readable)]
    (for_each readable (dispatch m e)
       (mkState (child_alive s) [m; stdin_fileno] (reaped s))).
Proof.
  intros Hs Hsel. unfold relay_once. rewrite Hs, Hsel. reflexivity.
Qed.

Lemma relay_once_running m p e s :
  child_running e ->
  let r := relay_once m p e s in
  out r = Ret tt /\ child_alive (st r) = child_alive s /\
  reaped (st r) = reaped s.
Proof.
  intros Hrun. pose proof Hrun as (Hs & (ready & Hsel) & _ & _).
  cbv zeta. rewrite (relay_once_select m p e s ready Hs Hsel).
  set (s0 := mkState (child_alive s) [m; stdin_fileno] (reaped s)).
  destruct (dispatch_master_running m e s0 Hrun) as (lm & Em).
  destruct (Z.eq_dec m stdin_fileno) as [E|E].
  - (* descriptor 0 is the master: both entries are served as the master *)
    destruct (readable_cases m ready) as [->|[->|[->| ->]]];
      rewrite <- ?E; cbn [for_each]; rewrite ?Em;
      cbn [out st evs after]; rewrite ?Em; cbn [out st evs after];
      auto.
  - destruct (dispatch_stdin_cases m e s0 E eq_refl)
      as (o & s1 & l & Ei & Ho & Ha & Hr).
    destruct (readable_cases m ready) as [->|[->|[->| ->]]];
      cbn [for_each]; rewrite ?Em; cbn [out st evs after];
      rewrite ?Ei; cbn [out st evs after]; auto;
      destruct Ho as [->|[->| ->]]; cbn [out st evs after]; auto.
Qed.

(** A pass during which the child keeps running leaves the loop going,
    whatever happens on the supervisor's stdin. *)
Lemma running_pass m p e s :
  p <> 0 -> child_running e -> child_alive s = true -> reaped s = false ->
  let r := loop_body m p e s in
  out r = Ret tt /\ child_alive (st r) = true /\ reaped (st r) = false.
Proof.
  intros Hp Hrun Ha Hr. unfold loop_body. cbv zeta. rewrite bind_run.
  destruct (relay_once_running m p e s Hrun) as (Ho & Ha' & Hr').
  destruct (relay_once m p e s) as [o s1 l1].
  cbn [out st evs] in *. subst o. cbn [after out st evs].
  rewrite check_child_run by exact Hp.
  destruct Hrun as (_ & _ & _ & ->). rewrite Hr', Hr.
  cbn [out st evs]. rewrite Ha', Hr', Ha, Hr. auto.
Qed.

(** The parent branch closes its copy of the slave descriptor, installs
    the handler and enters the [try] statement in [entry_state]. *)
Lemma parent_branch_run m p slave_fd envs f :
  parent_branch m p slave_fd CloseOk envs f boot_state =
  after [EvClose slave_fd CloseOk; EvSignalInstall SIGTERM]
    (supervise m p envs f entry_state).
Proof. reflexivity. Qed.

(** While the child keeps running the loop goes on to the next pass. *)
Lemma running_pass_continues m p e rest s :
  p <> 0 -> child_running e -> child_alive s = true -> reaped s = false ->
  relay_loop m p (e :: rest) s =
  after (evs (loop_body m p e s)) (relay_loop m p rest (st (loop_body m p e s))).
Proof.
  intros Hp He Ha Hr. simpl. rewrite Ha.
  destruct (running_pass m p e s Hp He Ha Hr) as (-> & _). reflexivity.
Qed.

Lemma running_script m p envs s :
  p <> 0 -> Forall child_running envs ->
  child_alive s = true -> reaped s = false ->
  let r := relay_loop m p envs s in
  out r = Pending /\ child_alive (st r) = true.
Proof.
  intros Hp Hall. revert s.
  induction Hall as [|e envs He _ IH]; intros s Ha Hr.
  - simpl. rewrite Ha. auto.
  - cbv zeta. rewrite running_pass_continues by assumption.
    destruct (running_pass m p e s Hp He Ha Hr) as (_ & Ha' & Hr').
    apply (IH _ Ha' Hr').
Qed.

(** Once [child_alive] is false after the first half of a pass, the loop
    is over with that pass, whatever the script holds next. *)
Lemma pass_ends_loop m p e rest s :
  p <> 0 ->
  child_alive (st (relay_once m p e s)) = false ->
  relay_loop m p (e :: rest) s = relay_loop m p [e] s /\
  out (relay_loop m p [e] s) <> Pending.
Proof.
  intros Hp Hdead. simpl.
  destruct (child_alive s); [|split; [reflexivity|discriminate]].
  unfold loop_body. rewrite bind_run.
  pose proof (total_relay_once m p e s) as Ht.
  destruct (relay_once m p e s) as [o s1 l1]; simpl in *.
  destruct o; simpl; try (split; [reflexivity|discriminate]).
  - rewrite check_child_run by exact Hp.
    destruct (if reaped s1 then WaitNoChild else liveness e); simpl;
      try (split; [reflexivity|discriminate]).
    destruct rest; simpl; rewrite Hdead; simpl;
      (split; [reflexivity|discriminate]).
  - destruct rest; simpl; rewrite Hdead; simpl;
      (split; [reflexivity|discriminate]).
  - congruence.
Qed.



Lemma dispatch_master_read_error m e s :
  master_read e = RdErr ->
  dispatch m e m s =
  mkRes Break (mkState false (fds s) (reaped s)) [EvRead m chunk_size RdErr].
Proof. intros Hm. unfold dispatch. rewrite Z.eqb_refl, Hm. reflexivity. Qed.

Lemma dispatch_stdin_read_error m e s :
  m <> stdin_fileno -> stdin_read e = RdErr ->
  dispatch m e stdin_fileno s =
  mkRes Break s [EvRead stdin_fileno chunk_size RdErr].
Proof.
  intros Hm Hrd. unfold dispatch.
  apply Z.eqb_neq in Hm. rewrite Z.eqb_sym in Hm.
  rewrite Hm, Z.eqb_refl, Hrd. reflexivity.
Qed.

(** A failed read of the master descriptor ends the [for] loop with
    [child_alive] cleared. *)
Lemma relay_once_master_error m p e s ready :
  sigterm e = None -> select_res e = SelReady ready -> In m ready ->
  master_read e = RdErr ->
  child_alive (st (relay_once m p e s)) = false.
Proof.
  intros Hs Hsel Hin Hm.
  rewrite (relay_once_select m p e s ready Hs Hsel).
  assert (Hex : existsb (Z.eqb m) ready = true).
  { apply existsb_exists. exists m. split; [exact Hin | apply Z.eqb_refl]. }
  cbn [List.filter]. rewrite Hex. cbn [for_each].
  rewrite dispatch_master_read_error by exact Hm. reflexivity.
Qed.

(** ** Every pass watches stdin; the exit code after the cleanup *)

Lemma selects_app l1 l2 : selects (l1 ++ l2) = selects l1 ++ selects l2.
Proof.
  induction l1 as [|ev l1 IH]; [reflexivity|].
  destruct ev; simpl; rewrite IH; reflexivity.
Qed.

Lemma selects_In rlist a l :
  In (EvSelect rlist a) l -> In rlist (selects l).
Proof.
  induction l as [|ev l IH]; simpl; [tauto|].
  intros [->|H]; [left; reflexivity|].
  destruct ev; simpl; auto.
Qed.

Lemma watching_refl m s : watching m s s [].
Proof. constructor. Qed.

Lemma watching_trans m s1 s2 s3 l1 l2 :
  watching m s1 s2 l1 -> watching m s2 s3 l2 -> watching m s1 s3 (l1 ++ l2).
Proof.
  unfold watching. rewrite selects_app. intros H1 H2.
  apply Forall_app. auto.
Qed.

Lemma watching_no_select m {A} (c : M A) :
  (forall s, selects (evs (c s)) = []) -> keeps (watching m) c.
Proof. intros H s. unfold watching. rewrite H. constructor. Qed.

Ltac watching_step m :=
  lazymatch goal with
  | |- keeps _ (_ ≫= _) =>
      apply keeps_bind; [exact (watching_trans m) | | intros ?]
  | |- keeps _ (try_except _ _ _) =>
      apply keeps_try_except; [exact (watching_trans m) | | intros ?]
  | |- keeps _ (for_each _ _) =>
      apply keeps_for_each;
      [exact (watching_refl m) | exact (watching_trans m) | intros ?]
  | |- keeps _ (if ?b then _ else _) => destruct b
  | |- keeps _ (match ?x with _ => _ end) => destruct x
  end.

Ltac no_select :=
  let s := fresh "s" in
  intros s; destruct s as [? ? []]; unfold watching; simpl;
  solve [repeat constructor].

Lemma watching_os_read m fd n a : keeps (watching m) (os_read fd n a).
Proof. destruct a; no_select. Qed.

Lemma watching_os_write m fd d a : keeps (watching m) (os_write fd d a).
Proof. destruct a; no_select. Qed.

Lemma watching_os_kill m p sg a : keeps (watching m) (os_kill p sg a).
Proof. destruct a; no_select. Qed.

Lemma watching_os_waitpid m p o a : keeps (watching m) (os_waitpid p o a).
Proof.
  destruct a; try no_select.
  intros [? ? []]; unfold watching, os_waitpid; simpl;
    destruct (Z.land o WNOHANG =? 0); repeat constructor.
Qed.

Lemma watching_fds_remove m x : keeps (watching m) (fds_remove x).
Proof.
  intros s. unfold fds_remove.
  destruct (list_remove x (fds s)); constructor.
Qed.

#[local] Hint Resolve watching_os_read watching_os_write watching_os_kill
  watching_os_waitpid watching_fds_remove : script.

Lemma watching_relay_once m p e : keeps (watching m) (relay_once m p e).
Proof.
  unfold relay_once, select_select, dispatch, sigterm_handler.
  repeat watching_step m; auto with script; no_select.
Qed.

Lemma watching_loop_body m p e : keeps (watching m) (loop_body m p e).
Proof.
  unfold loop_body, check_child.
  repeat watching_step m; auto using watching_relay_once with script;
    no_select.
Qed.

(** No pass ever leaves stdin out of the wait. *)
Lemma select_always_watches_stdin m p envs s rlist a :
  In (EvSelect rlist a) (evs (relay_loop m p envs s)) ->
  rlist = [m; stdin_fileno].
Proof.
  assert (H : keeps (watching m) (relay_loop m p envs)).
  { induction envs as [|e envs IH]; intros s'; simpl.
    - destruct (child_alive s'); constructor.
    - destruct (child_alive s'); [|constructor].
      pose proof (watching_loop_body m p e s') as He.
      destruct (loop_body m p e s') as [o s1 l1]; simpl in *.
      destruct o; simpl; try exact He;
        (eapply watching_trans; [exact He | apply IH]). }
  specialize (H s). unfold watching in H. rewrite Forall_forall in H.
  intros Hin. apply H. apply list_elem_of_In. eapply selects_In, Hin.
Qed.

(** When the loop ends without having obtained a status and the cleanup's
    wait reports anything but a normal exit, or no child at all, [main]
    returns and the exit code is 0. *)
Lemma abnormal_final_status_exit_0 m p envs f s :
  out (relay_loop m p envs s) = Ret tt ->
  reaped (st (relay_loop m p envs s)) = false ->
  wait_res f = WaitNoChild \/
  (exists status, wait_res f = WaitStatus status /\ WIFEXITED status = false) ->
  exit_code (out (supervise m p envs f s)) = Some 0.
Proof.
  intros Ho Hr Hw. rewrite supervise_run. cbv zeta. rewrite Ho, Hr.
  destruct Hw as [->|(status & -> & ->)]; reflexivity.
Qed.

(** ** A run of the model *)

(** The scenario of the specification: the child prompts, the supervisor
    is given a code on stdin and forwards it, the child exits with 0. *)
Example prompt_code_exit_0 :
  let prompt := mkIter None (SelReady [3])
                  (RdData ["c"; "o"; "d"; "e"; ":"; " "]%byte) (WrOk 6)
                  RdErr WrErr WaitNone in
  let code := mkIter None (SelReady [0]) RdErr WrErr
                (RdData ["A"; "B"; "C"; "1"; "2"; "3"; x0a]%byte) (WrOk 7)
                WaitNone in
  let gone := mkIter None (SelReady [3]) (RdData []) WrErr RdErr WrErr
                (WaitStatus (W_EXITCODE 0 0)) in
  let r := supervise 3 4242 [prompt; code; gone] final_no_child entry_state in
  evs r =
    [EvSelect [3; 0] (SelReady [3]);
     EvRead 3 4096 (RdData ["c"; "o"; "d"; "e"; ":"; " "]%byte);
     EvWrite 1 ["c"; "o"; "d"; "e"; ":"; " "]%byte (WrOk 6);
     EvWaitpid 4242 WNOHANG WaitNone;
     EvSelect [3; 0] (SelReady [0]);
     EvRead 0 4096 (RdData ["A"; "B"; "C"; "1"; "2"; "3"; x0a]%byte);
     EvWrite 3 ["A"; "B"; "C"; "1"; "2"; "3"; x0a]%byte (WrOk 7);
     EvWaitpid 4242 WNOHANG WaitNone;
     EvSelect [3; 0] (SelReady [3]);
     EvRead 3 4096 (RdData []);
     EvWaitpid 4242 WNOHANG (WaitStatus 0);
     EvClose 3 CloseOk;
     EvKill 4242 SIGTERM KillNoProcess;
     EvWaitpid 4242 0 WaitNoChild] /\
  exit_code (out r) = Some 0.
Proof. vm_compute. split; reflexivity. Qed.


(** ** The claims *)

(** C1: (failing run) SIGTERM reaches the supervisor, the handler relays it,
    the loop unwinds before the child is gone and the cleanup's wait
    reports the child killed by the signal: [main] returns and the
    supervisor's exit code is 0, not 1.  The same happens when no status
    can be obtained at all. *)
Theorem signalled_child_exit_code_is_0 :
  let r := supervise 3 4242 [pass_sigterm] final_killed entry_state in
  evs r = [EvSigterm; EvKill 4242 SIGTERM KillOk;
           EvSelect [3; 0] (SelReady []);
           EvWaitpid 4242 WNOHANG WaitNone;
           EvClose 3 CloseOk; EvKill 4242 SIGTERM KillOk;
           EvWaitpid 4242 0 (WaitStatus SIGTERM)] /\
  WIFEXITED SIGTERM = false /\
  out r = Ret tt /\
  exit_code (out r) = Some 0 /\
  exit_code (out (supervise 3 4242 [pass_no_child] final_no_child entry_state))
  = Some 0.
Proof. vm_compute. repeat split; reflexivity. Qed.




(** C3: (failing run) stdin returns zero bytes in the first pass; the second
    pass builds [fds] anew, so [select] is again given the stdin
    descriptor and stdin is read again. *)
Theorem stdin_still_watched_after_eof :
  let r := relay_loop 3 4242 [pass_stdin_eof; pass_stdin_eof] entry_state in
  evs r = [EvSelect [3; 0] (SelReady [0]);
           EvRead 0 4096 (RdData []);
           EvWaitpid 4242 WNOHANG WaitNone;
           EvSelect [3; 0] (SelReady [0]);
           EvRead 0 4096 (RdData []);
           EvWaitpid 4242 WNOHANG WaitNone] /\
  fds (st (loop_body 3 4242 pass_stdin_eof entry_state)) = [3].
Proof. vm_compute. split; reflexivity. Qed.

(** C4: if a wait, the loop's non-blocking one or the cleanup's blocking
    one, returns the status of a normal exit with code [N], the
    supervisor exits with code [N]; that status is the only one obtained
    in the run, and when the loop's check obtained it the cleanup's wait
    finds no child and changes nothing. *)
Theorem exit_code_propagation m p envs f N o :
  p <> 0 -> 0 <= N <= 255 ->
  let r := supervise m p envs f entry_state in
  In (EvWaitpid p o (WaitStatus (W_EXITCODE N 0))) (evs r) ->
  exit_code (out r) = Some N /\
  statuses (evs r) = [(o, W_EXITCODE N 0)] /\
  (o = WNOHANG \/ o = 0) /\
  (o = WNOHANG -> In (EvWaitpid p 0 WaitNoChild) (evs r)).
Proof.
  intros Hp HN r Hin.
  destruct (exit_status_roundtrip N HN) as (Hex & Hst & Hland).
  destruct (exited_status_decides m p envs f entry_state o _ Hp Hin Hex)
    as (Hout & Hs & Ho).
  fold r in Hout, Hs. rewrite Hout, Hst. simpl. rewrite Hland.
  repeat split; auto.
  intros ->. subst r. revert Hs. rewrite supervise_run.
  destruct (relay_loop_spec m p envs entry_state Hp) as (_ & S).
  destruct (relay_loop m p envs entry_state) as [o1 s1 l1]; simpl in *.
  destruct S as [[S R]|(status & S & O & R & _)].
  - destruct o1; simpl; rewrite ?S; try discriminate;
      rewrite statuses_app, S; simpl;
      destruct (if reaped s1 then WaitNoChild else wait_res f);
      discriminate.
  - subst o1. rewrite R. simpl. intros _.
    apply in_or_app. right. simpl. auto.
Qed.

(** C4 at a run in which the loop's check finds the child exited with
    code 7. *)
Lemma exit_code_propagation_witness :
  exit_code (out (supervise 3 4242 [pass_child_exits] final_killed entry_state))
  = Some 7.
Proof.
  apply (exit_code_propagation 3 4242 [pass_child_exits] final_killed 7 WNOHANG);
    [discriminate | lia | vm_compute; auto].
Defined.

(** C5: the master descriptor is closed at most once in a run, by the
    cleanup and so after every call of the relay loop, which itself
    closes nothing; and as long as the child keeps running, passes in
    which stdin is at end-of-stream neither end the loop nor close
    anything. *)
Theorem master_closed_once_after_loop m p envs f s envs' s' :
  p <> 0 ->
  Forall (fun e => stdin_read e = RdData [] /\ child_running e) envs' ->
  child_alive s' = true -> reaped s' = false ->
  let l := relay_loop m p envs s in
  let r := supervise m p envs f s in
  let r' := supervise m p envs' f s' in
  (length (closes (evs r)) <= 1)%nat /\
  (closes (evs r) = [] \/ closes (evs r) = [m]) /\
  closes (evs l) = [] /\
  (out l = Pending /\ evs r = evs l \/
   out l <> Pending /\
   exists c k w,
     evs r = evs l ++ [EvClose m c; EvKill p SIGTERM k; EvWaitpid p 0 w]) /\
  (out r' = Pending /\ child_alive (st r') = true /\ closes (evs r') = []).
Proof.
  intros Hp Hall Ha Hr l r r'.
  destruct (relay_loop_spec m p envs s Hp) as (Hc & _). fold l in Hc.
  assert (Hr1 : out l = Pending /\ evs r = evs l \/
    out l <> Pending /\
    exists c k w,
      evs r = evs l ++ [EvClose m c; EvKill p SIGTERM k; EvWaitpid p 0 w]).
  { subst r. rewrite supervise_run. fold l.
    destruct (out l); simpl; auto; right; (split; [discriminate|eauto]). }
  assert (Hall' : Forall child_running envs').
  { eapply Forall_impl; [exact Hall|]. simpl. tauto. }
  destruct (running_script m p envs' s' Hp Hall' Ha Hr) as (Ho & Hal).
  assert (Hr' : r' = relay_loop m p envs' s').
  { subst r'. rewrite supervise_run. rewrite Ho. reflexivity. }
  repeat split; auto.
  - destruct Hr1 as [[_ ->]|(_ & c & k & w & ->)];
      rewrite ?closes_app, Hc; simpl; lia.
  - destruct Hr1 as [[_ ->]|(_ & c & k & w & ->)];
      rewrite ?closes_app, Hc; simpl; auto.
  - rewrite Hr'. exact Ho.
  - rewrite Hr'. exact Hal.
  - rewrite Hr'. apply (relay_loop_spec m p envs' s' Hp).
Qed.

(** C5 at a run that ends with the child's exit, and at two passes with
    stdin at end-of-stream while the child writes. *)
Lemma master_closed_once_after_loop_witness :
  let r' := supervise 3 4242 [pass_eof_child_writes; pass_eof_child_writes]
              final_killed entry_state in
  (length (closes (evs (supervise 3 4242 [pass_child_exits] final_killed
                         entry_state))) <= 1)%nat /\
  out r' = Pending /\ child_alive (st r') = true /\ closes (evs r') = [].
Proof.
  destruct (master_closed_once_after_loop 3 4242 [pass_child_exits]
              final_killed entry_state
              [pass_eof_child_writes; pass_eof_child_writes] entry_state)
    as (H1 & _ & _ & _ & H4).
  - discriminate.
  - repeat constructor; vm_compute; eauto.
  - reflexivity.
  - reflexivity.
  - split; [exact H1 | exact H4].
Defined.

(** C6: once the relay loop has exited, however it did so, the calls of
    the supervisor end with the cleanup sequence: the close of the master
    descriptor, SIGTERM sent to the child, and the blocking wait, each
    made whatever the answer to the one before it (a close that fails, a
    child that no longer exists or may not be signalled). *)
Theorem cleanup_runs_on_every_exit m p envs f s :
  let l := relay_loop m p envs s in
  out l <> Pending ->
  evs (supervise m p envs f s) =
  evs l ++
  [EvClose m (close_res f);
   EvKill p SIGTERM (if reaped (st l) then KillNoProcess else kill_res f);
   EvWaitpid p 0 (if reaped (st l) then WaitNoChild else wait_res f)].
Proof.
  intros l Hl. rewrite supervise_run. fold l.
  destruct (out l); try reflexivity. congruence.
Qed.

(** C6 at a run unwound by SIGTERM in which every step of the cleanup
    fails. *)
Lemma cleanup_runs_on_every_exit_witness :
  evs (supervise 3 4242 [pass_sigterm] final_all_fail entry_state) =
  evs (relay_loop 3 4242 [pass_sigterm] entry_state) ++
  [EvClose 3 CloseErr; EvKill 4242 SIGTERM KillNotPermitted;
   EvWaitpid 4242 0 WaitNoChild].
Proof.
  apply (cleanup_runs_on_every_exit 3 4242 [pass_sigterm] final_all_fail
           entry_state).
  vm_compute. discriminate.
Defined.

(** C7: the environment handed to [execvpe] is the parent's with
    [CLAUDECODE] absent, [TERM] bound to [dumb], and every other variable
    as the parent has it. *)
Theorem child_env_frame master_fd slave_fd (environ : gmap string string)
    (x : exec_ans) (k : string) :
  k <> "CLAUDECODE" -> k <> "TERM" ->
  In (CevExecvpe "claude" ["claude"; "auth"; "login"] (child_env environ))
     (fst (child_branch master_fd slave_fd environ x)) /\
  child_env environ !! "CLAUDECODE" = None /\
  child_env environ !! "TERM" = Some "dumb" /\
  child_env environ !! k = environ !! k.
Proof.
  intros Hc Ht. unfold child_env. repeat split.
  - unfold child_branch.
    destruct x as [|e msg]; [|destruct (isinstance e cls_Exception)];
      cbn [fst]; try apply in_or_app; simpl; tauto.
  - rewrite lookup_insert_ne by discriminate. apply lookup_delete_eq.
  - apply lookup_insert_eq.
  - rewrite lookup_insert_ne by congruence.
    apply lookup_delete_ne. congruence.
Qed.

(** C7 at an environment with [CLAUDECODE], [TERM] and [PATH]. *)
Lemma child_env_frame_witness :
  child_env {[ "CLAUDECODE" := "1"; "TERM" := "xterm"; "PATH" := "/bin" ]}
    !! "PATH" = Some "/bin".
Proof.
  assert (H := child_env_frame 3 4
    {[ "CLAUDECODE" := "1"; "TERM" := "xterm"; "PATH" := "/bin" ]}
    ExecReplaced "PATH").
  destruct H as (_ & _ & _ & H); [discriminate | discriminate |].
  rewrite H. vm_compute. reflexivity.
Defined.







(** C10: a failed read of the supervisor's stdin only leaves the [for]
    loop: the state, [child_alive] included, is untouched, and while the
    child keeps running the loop goes on to its next pass.  A failed read
    of the master descriptor clears [child_alive], and the loop is over
    with that pass whatever would follow. *)
Theorem stdin_read_error_keeps_relaying m p e rest s e' rest' s' ready' :
  p <> 0 -> m <> stdin_fileno ->
  stdin_read e = RdErr -> child_running e ->
  child_alive s = true -> reaped s = false ->
  sigterm e' = None -> select_res e' = SelReady ready' -> In m ready' ->
  master_read e' = RdErr ->
  (dispatch m e stdin_fileno s =
     mkRes Break s [EvRead stdin_fileno chunk_size RdErr] /\
   out (loop_body m p e s) = Ret tt /\
   child_alive (st (loop_body m p e s)) = true /\
   relay_loop m p (e :: rest) s =
     after (evs (loop_body m p e s))
       (relay_loop m p rest (st (loop_body m p e s)))) /\
  (dispatch m e' m s' =
     mkRes Break (mkState false (fds s') (reaped s'))
       [EvRead m chunk_size RdErr] /\
   relay_loop m p (e' :: rest') s' = relay_loop m p [e'] s' /\
   out (relay_loop m p [e'] s') <> Pending).
Proof.
  intros Hp Hm Hrd Hrun Ha Hr Hs' Hsel' Hin' Hmr'.
  destruct (running_pass m p e s Hp Hrun Ha Hr) as (Ho & Hal & _).
  split; [repeat split; auto using running_pass_continues|].
  - apply dispatch_stdin_read_error; assumption.
  - split.
    + apply dispatch_master_read_error; assumption.
    + apply pass_ends_loop; [exact Hp|].
      apply (relay_once_master_error m p e' s' ready'); assumption.
Qed.

(** C10 at [pass_stdin_read_fails] and [pass_master_read_fails]. *)
Lemma stdin_read_error_keeps_relaying_witness :
  (out (loop_body 3 4242 pass_stdin_read_fails entry_state) = Ret tt /\
   child_alive (st (loop_body 3 4242 pass_stdin_read_fails entry_state)) = true) /\
  out (relay_loop 3 4242 [pass_master_read_fails] entry_state) <> Pending.
Proof.
  destruct (stdin_read_error_keeps_relaying 3 4242
              pass_stdin_read_fails [pass_both_ways] entry_state
              pass_master_read_fails [pass_both_ways] entry_state [3])
    as ((_ & H2 & H3 & _) & (_ & _ & H6)).
  - discriminate.
  - discriminate.
  - reflexivity.
  - unfold child_running. cbn. eauto 10.
  - reflexivity.
  - reflexivity.
  - reflexivity.
  - reflexivity.
  - simpl. auto.
  - reflexivity.
  - split; [split; [exact H2 | exact H3] | exact H6].
Defined.

(** * Further properties of the script *)

Lemma bytes_read_app fd l1 l2 :
  bytes_read fd (l1 ++ l2) = bytes_read fd l1 ++ bytes_read fd l2.
Proof.
  induction l1 as [|ev l1 IH]; [reflexivity|].
  destruct ev as [| | | | |fd' n [d|]| |]; simpl; auto.
  destruct (fd' =? fd); rewrite IH, ?List.app_assoc; reflexivity.
Qed.

Lemma bytes_written_app fd l1 l2 :
  bytes_written fd (l1 ++ l2) = bytes_written fd l1 ++ bytes_written fd l2.
Proof.
  induction l1 as [|ev l1 IH]; [reflexivity|].
  destruct ev as [| | | | | |fd' d a|]; simpl; auto.
  destruct (fd' =? fd); rewrite IH, ?List.app_assoc; reflexivity.
Qed.

Lemma written_chunks_app l1 l2 :
  written_chunks (l1 ++ l2) = written_chunks l1 ++ written_chunks l2.
Proof.
  induction l1 as [|ev l1 IH]; [reflexivity|].
  destruct ev; simpl; rewrite IH; reflexivity.
Qed.

(** When every write is taken in full, the bytes taken are the bytes
    handed over. *)
Lemma bytes_accepted_complete fd l :
  writes_complete l -> bytes_accepted fd l = bytes_written fd l.
Proof.
  induction l as [|ev l IH]; intros H; [reflexivity|].
  assert (Hl : writes_complete l).
  { intros fd' d a Hin. apply (H fd' d a). right. exact Hin. }
  destruct ev as [| | | | | |fd' d a|]; simpl; auto.
  rewrite (H fd' d a) by (left; reflexivity).
  rewrite firstn_all, IH by exact Hl. reflexivity.
Qed.

Lemma faithful_refl m s : faithful m s s [].
Proof. repeat split. constructor. Qed.

Lemma faithful_trans m s1 s2 s3 l1 l2 :
  faithful m s1 s2 l1 -> faithful m s2 s3 l2 -> faithful m s1 s3 (l1 ++ l2).
Proof.
  intros (O1 & I1 & C1) (O2 & I2 & C2). unfold faithful.
  rewrite !bytes_written_app, !bytes_read_app, written_chunks_app.
  rewrite O1, O2, I1, I2. repeat split. apply Forall_app. auto.
Qed.

(** A statement that neither reads nor writes. *)
Lemma faithful_no_io m {A} (c : M A) :
  (forall s fd, bytes_read fd (evs (c s)) = [] /\
                bytes_written fd (evs (c s)) = [] /\
                written_chunks (evs (c s)) = []) ->
  keeps (faithful m) c.
Proof.
  intros H s. unfold faithful.
  destruct (H s stdout_fileno) as (_ & -> & ->).
  destruct (H s m) as (-> & -> & _).
  destruct (H s stdin_fileno) as (-> & _ & _).
  repeat split. constructor.
Qed.

Lemma take_chunk_length n d :
  0 <= n -> Z.of_nat (length (take_chunk n d)) <= n.
Proof.
  intros Hn. with_strategy transparent [take_chunk] unfold take_chunk.
  pose proof (firstn_le_length (Z.to_nat n) d). lia.
Qed.

Lemma faithful_dispatch m e fd :
  m <> stdin_fileno -> m <> stdout_fileno ->
  keeps (faithful m) (dispatch m e fd).
Proof.
  intros H0 H1 s.
  assert (Em0 : (m =? 0) = false) by (apply Z.eqb_neq; exact H0).
  assert (E0m : (0 =? m) = false) by (rewrite Z.eqb_sym; exact Em0).
  assert (Em1 : (m =? 1) = false) by (apply Z.eqb_neq; exact H1).
  assert (E1m : (1 =? m) = false) by (rewrite Z.eqb_sym; exact Em1).
  assert (Hok : forall fd' chunk,
            fd' = stdout_fileno \/ fd' = m -> chunk <> [] ->
            Z.of_nat (length chunk) <= chunk_size ->
            Forall (chunk_ok m) [(fd', chunk)]).
  { intros fd' chunk Hfd Hne Hlen. constructor; [|constructor].
    repeat split; assumption. }
  unfold dispatch.
  destruct (fd =? m); [|destruct (fd =? stdin_fileno)].
  - destruct (master_read e) as [d|].
    + unfold os_read.
      pose proof (take_chunk_length chunk_size d ltac:(discriminate)) as Hlen.
      revert Hlen. generalize (take_chunk chunk_size d). intros chunk Hlen.
      destruct chunk as [|x c].
      * (run_script; cbn [is_empty]; run_script). unfold faithful, stdin_fileno, stdout_fileno.
        cbn [bytes_written bytes_read written_chunks evs app].
        rewrite ?Z.eqb_refl, ?Em0, ?Em1, ?E0m, ?E1m, ?app_nil_r. repeat split. constructor.
      * destruct (stdout_write e); (run_script; cbn [is_empty]; run_script); unfold faithful, stdin_fileno, stdout_fileno;
          cbn [bytes_written bytes_read written_chunks evs app];
          rewrite ?Z.eqb_refl, ?Em0, ?Em1, ?E0m, ?E1m, ?app_nil_r;
          (repeat split; try reflexivity; apply Hok; [left; reflexivity | discriminate | exact Hlen]).
    + (run_script; cbn [is_empty]; run_script). unfold faithful, stdin_fileno, stdout_fileno.
        cbn [bytes_written bytes_read written_chunks evs app]. rewrite ?Z.eqb_refl, ?Em0, ?Em1, ?E0m, ?E1m, ?app_nil_r. repeat split. constructor.
  - destruct (stdin_read e) as [d|].
    + unfold os_read.
      pose proof (take_chunk_length chunk_size d ltac:(discriminate)) as Hlen.
      revert Hlen. generalize (take_chunk chunk_size d). intros chunk Hlen.
      destruct chunk as [|x c].
      * unfold fds_remove.
        cbv beta iota zeta delta
          [try_except mbind mret M_bind M_ret emit raise brk cont set_fds
           after recast caught_by isinstance existsb orb out st evs app
           is_empty].
        destruct (list_remove stdin_fileno (fds s));
          cbv beta iota zeta delta
            [try_except mbind mret M_bind M_ret emit raise brk cont set_fds
             after recast caught_by isinstance existsb orb out st evs app
             is_empty];
          unfold faithful, stdin_fileno, stdout_fileno;
          cbn [bytes_written bytes_read written_chunks evs app];
          rewrite ?Z.eqb_refl, ?Em0, ?Em1, ?E0m, ?E1m, ?app_nil_r;
          repeat split; constructor.
      * destruct (master_write e); (run_script; cbn [is_empty]; run_script); unfold faithful, stdin_fileno, stdout_fileno;
          cbn [bytes_written bytes_read written_chunks evs app];
          rewrite ?Z.eqb_refl, ?Em0, ?Em1, ?E0m, ?E1m, ?app_nil_r;
          (repeat split; try reflexivity; apply Hok; [right; reflexivity | discriminate | exact Hlen]).
    + (run_script; cbn [is_empty]; run_script). unfold faithful, stdin_fileno, stdout_fileno.
        cbn [bytes_written bytes_read written_chunks evs app]. rewrite ?Z.eqb_refl, ?Em0, ?Em1, ?E0m, ?E1m, ?app_nil_r. repeat split. constructor.
  - apply faithful_refl.
Qed.

Lemma keeps_try_finally (I : pstate -> pstate -> list event -> Prop) :
  (forall s1 s2 s3 l1 l2, I s1 s2 l1 -> I s2 s3 l2 -> I s1 s3 (l1 ++ l2)) ->
  forall {A} (m : M A) (f : M unit),
    keeps I m -> keeps I f -> keeps I (try_finally m f).
Proof.
  intros Htrans A m f Hm Hf s. unfold try_finally. specialize (Hm s).
  destruct (m s) as [o s1 l1]. cbn [out st evs] in *.
  destruct o; cbn [out st evs]; try exact Hm;
    (eapply Htrans; [exact Hm | apply Hf]).
Qed.

Ltac faithful_step m :=
  lazymatch goal with
  | |- keeps _ (try_finally _ _) =>
      apply keeps_try_finally; [exact (faithful_trans m) | |]
  | |- keeps _ (_ ≫= _) =>
      apply keeps_bind; [exact (faithful_trans m) | | intros ?]
  | |- keeps _ (try_except _ _ _) =>
      apply keeps_try_except; [exact (faithful_trans m) | | intros ?]
  | |- keeps _ (for_each _ _) =>
      apply keeps_for_each;
      [exact (faithful_refl m) | exact (faithful_trans m) | intros ?]
  | |- keeps _ (if ?b then _ else _) => destruct b
  | |- keeps _ (match ?x with _ => _ end) => destruct x
  end.

Ltac no_io :=
  apply faithful_no_io;
  let s := fresh "s" in
  intros s ?; destruct s as [? ? []]; cbn;
  solve [repeat split].

Lemma faithful_os_kill m p sg a : keeps (faithful m) (os_kill p sg a).
Proof. destruct a; no_io. Qed.

Lemma faithful_os_close m fd a : keeps (faithful m) (os_close fd a).
Proof. destruct a; no_io. Qed.

Lemma faithful_os_waitpid m p o a : keeps (faithful m) (os_waitpid p o a).
Proof.
  destruct a; try no_io.
  apply faithful_no_io. intros [? ? []] ?; unfold os_waitpid; cbn;
    destruct (Z.land o WNOHANG =? 0); repeat split.
Qed.

#[local] Hint Resolve faithful_os_kill faithful_os_close faithful_os_waitpid
  faithful_dispatch : script.

Lemma faithful_relay_loop m p envs :
  m <> stdin_fileno -> m <> stdout_fileno ->
  keeps (faithful m) (relay_loop m p envs).
Proof.
  intros H0 H1.
  assert (Hbody : forall e, keeps (faithful m) (loop_body m p e)).
  { intros e.
    unfold loop_body, relay_once, check_child, select_select, sigterm_handler.
    repeat faithful_step m; auto with script; no_io. }
  induction envs as [|e envs IH]; intros s; simpl.
  - destruct (child_alive s); apply faithful_refl.
  - destruct (child_alive s); [|apply faithful_refl].
    specialize (Hbody e s).
    destruct (loop_body m p e s) as [o s1 l1]. cbn [out st evs] in *.
    destruct o; cbn [out st evs after]; try exact Hbody;
      (eapply faithful_trans; [exact Hbody | apply IH]).
Qed.

Lemma faithful_supervise m p envs f :
  m <> stdin_fileno -> m <> stdout_fileno ->
  keeps (faithful m) (supervise m p envs f).
Proof.
  intros H0 H1. unfold supervise, cleanup.
  repeat faithful_step m; auto using faithful_relay_loop with script; no_io.
Qed.

(** X1: in every run the bytes handed to the writes on stdout are, in
    order, exactly the bytes the reads of the master descriptor returned;
    when every write is taken in full these are the bytes stdout
    receives. *)
Theorem output_fidelity m p envs f s :
  m <> stdin_fileno -> m <> stdout_fileno ->
  let r := supervise m p envs f s in
  bytes_written stdout_fileno (evs r) = bytes_read m (evs r) /\
  (writes_complete (evs r) ->
   bytes_accepted stdout_fileno (evs r) = bytes_read m (evs r)).
Proof.
  intros H0 H1 r.
  destruct (faithful_supervise m p envs f H0 H1 s) as (Ho & _ & _).
  fold r in Ho. split; [exact Ho|].
  intros Hc. rewrite bytes_accepted_complete by exact Hc. exact Ho.
Qed.

Ltac complete_writes :=
  let fd := fresh "fd" in
  let d := fresh "d" in
  let a := fresh "a" in
  let Hin := fresh "Hin" in
  intros fd d a Hin; vm_compute in Hin;
  repeat (destruct Hin as [Hin|Hin];
          [try discriminate Hin; inversion Hin; reflexivity|]);
  destruct Hin.

(** X1 at a run that relays a byte each way and then finds the child
    exited. *)
Lemma output_fidelity_witness :
  bytes_accepted stdout_fileno
    (evs (supervise 3 4242 [pass_both_ways; pass_child_exits] final_killed
            entry_state)) = ["o"%byte].
Proof.
  destruct (output_fidelity 3 4242 [pass_both_ways; pass_child_exits]
              final_killed entry_state) as (_ & H).
  - discriminate.
  - discriminate.
  - rewrite H; [vm_compute; reflexivity | complete_writes].
Defined.

(** X2: in every run the bytes handed to the writes on the master
    descriptor are, in order, exactly the bytes the reads of the
    supervisor's stdin returned; when every write is taken in full these
    are the bytes the terminal receives. *)
Theorem input_fidelity m p envs f s :
  m <> stdin_fileno -> m <> stdout_fileno ->
  let r := supervise m p envs f s in
  bytes_written m (evs r) = bytes_read stdin_fileno (evs r) /\
  (writes_complete (evs r) ->
   bytes_accepted m (evs r) = bytes_read stdin_fileno (evs r)).
Proof.
  intros H0 H1 r.
  destruct (faithful_supervise m p envs f H0 H1 s) as (_ & Hi & _).
  fold r in Hi. split; [exact Hi|].
  intros Hc. rewrite bytes_accepted_complete by exact Hc. exact Hi.
Qed.

(** X2 at the same run. *)
Lemma input_fidelity_witness :
  bytes_accepted 3
    (evs (supervise 3 4242 [pass_both_ways; pass_child_exits] final_killed
            entry_state)) = ["j"%byte].
Proof.
  destruct (input_fidelity 3 4242 [pass_both_ways; pass_child_exits]
              final_killed entry_state) as (_ & H).
  - discriminate.
  - discriminate.
  - rewrite H; [vm_compute; reflexivity | complete_writes].
Defined.

(** X3: every write of a run goes to stdout or to the master descriptor,
    carries at least one byte and at most [chunk_size] bytes: an empty
    read is never forwarded. *)
Theorem writes_are_nonempty_chunks m p envs f s fd d a :
  m <> stdin_fileno -> m <> stdout_fileno ->
  In (EvWrite fd d a) (evs (supervise m p envs f s)) ->
  (fd = stdout_fileno \/ fd = m) /\
  d <> [] /\ Z.of_nat (length d) <= chunk_size.
Proof.
  intros H0 H1 Hin.
  destruct (faithful_supervise m p envs f H0 H1 s) as (_ & _ & Hc).
  rewrite Forall_forall in Hc. apply (Hc (fd, d)).
  apply list_elem_of_In.
  clear Hc. induction (evs (supervise m p envs f s)) as [|ev l IH];
    [destruct Hin|].
  destruct Hin as [->|Hin]; [left; reflexivity|].
  destruct ev; simpl; auto.
Qed.

(** X3 at the write of the byte read from stdin. *)
Lemma writes_are_nonempty_chunks_witness :
  (3 = stdout_fileno \/ 3 = 3) /\
  ["j"%byte] <> [] /\ Z.of_nat (length ["j"%byte]) <= chunk_size.
Proof.
  apply (writes_are_nonempty_chunks 3 4242 [pass_both_ways; pass_child_exits]
           final_killed entry_state 3 ["j"%byte] (WrOk 1)).
  - discriminate.
  - discriminate.
  - vm_compute. tauto.
Defined.

Lemma take_chunk_nil n : take_chunk n [] = [].
Proof.
  with_strategy transparent [take_chunk] unfold take_chunk.
  apply firstn_nil.
Qed.

(** Serving the master descriptor ends normally or leaves the [for]
    loop; it never raises and leaves [fds] alone. *)
Lemma dispatch_master_cases m e s :
  exists o s1 l,
    dispatch m e m s = mkRes o s1 l /\
    (o = Ret tt \/ o = Break /\ child_alive s1 = false) /\
    fds s1 = fds s /\ reaped s1 = reaped s.
Proof.
  unfold dispatch. rewrite Z.eqb_refl.
  destruct (master_read e) as [d|]; [|run_script; eauto 10].
  unfold os_read. generalize (take_chunk chunk_size d). intros chunk.
  destruct chunk as [|x c]; [run_script; cbn [is_empty]; run_script; eauto 10|].
  destruct (stdout_write e); run_script; cbn [is_empty]; run_script; eauto 10.
Qed.


(** The [for] loop over what [select] reported always runs to its end or
    to a [break]: no exception leaves it. *)
Lemma for_each_readable_ends m e s ready :
  fds s = [m; stdin_fileno] ->
  out (for_each
         (List.filter (fun fd => existsb (Z.eqb fd) ready) [m; stdin_fileno])
         (dispatch m e) s) = Ret tt.
Proof.
  intros Hf.
  destruct (dispatch_master_cases m e s) as (om & sm & lm & Em & Hom & Hfm & _).
  destruct (Z.eq_dec m stdin_fileno) as [E|E].
  - destruct (readable_cases m ready) as [->|[->|[->| ->]]];
      rewrite <- ?E; cbn [for_each]; rewrite ?Em; cbn [out st evs after];
      try reflexivity;
      destruct Hom as [->|[-> _]]; cbn [out st evs after]; try reflexivity;
      destruct (dispatch_master_cases m e sm) as (o2 & s2 & l2 & E2 & Ho2 & _);
      rewrite E2; destruct Ho2 as [->|[-> _]]; reflexivity.
  - assert (Hi : forall s', fds s' = [m; stdin_fileno] ->
              out (for_each [stdin_fileno] (dispatch m e) s') = Ret tt).
    { intros s' Hs'.
      destruct (dispatch_stdin_cases m e s' E Hs')
        as (o & s1 & l & Ei & Ho & _).
      cbn [for_each]. rewrite Ei.
      destruct Ho as [->|[->| ->]]; reflexivity. }
    destruct (readable_cases m ready) as [->|[->|[->| ->]]];
      try (apply Hi; exact Hf).
    + reflexivity.
    + cbn [for_each]. rewrite Em.
      destruct Hom as [->|[-> _]]; reflexivity.
    + change [m; stdin_fileno] with ([m] ++ [stdin_fileno]).
      cbn [for_each app]. rewrite Em. cbn [out st evs after].
      destruct Hom as [->|[-> _]]; cbn [out st evs after]; [|reflexivity].
      apply Hi. congruence.
Qed.








(** A pass whose first half ended normally makes the check for the
    child's exit as its last call. *)
Lemma loop_body_checks m p e s :
  p <> 0 -> out (relay_once m p e s) = Ret tt ->
  evs (loop_body m p e s) =
  evs (relay_once m p e s) ++
  [EvWaitpid p WNOHANG
     (if reaped (st (relay_once m p e s)) then WaitNoChild else liveness e)].
Proof.
  intros Hp Ho. unfold loop_body. rewrite bind_run, Ho.
  rewrite check_child_run by exact Hp.
  destruct (if reaped (st (relay_once m p e s)) then WaitNoChild
            else liveness e); reflexivity.
Qed.

(** The calls of a loop that makes a single pass are those of the pass. *)
Lemma relay_loop_single m p e s :
  child_alive s = true ->
  evs (relay_loop m p [e] s) = evs (loop_body m p e s).
Proof.
  intros Ha. simpl. rewrite Ha.
  destruct (loop_body m p e s) as [o s1 l1]. cbn [out st evs].
  destruct o; cbn [out st evs after]; try reflexivity;
    destruct (child_alive s1); cbn [evs]; apply app_nil_r.
Qed.

Lemma dispatch_master_eof m e s :
  master_read e = RdData [] ->
  dispatch m e m s =
  mkRes Break (mkState false (fds s) (reaped s))
    [EvRead m chunk_size (RdData [])].
Proof.
  intros Hm. unfold dispatch. rewrite Z.eqb_refl, Hm.
  unfold os_read. rewrite take_chunk_nil. reflexivity.
Qed.

Lemma dispatch_stdout_error m e s d :
  master_read e = RdData d -> take_chunk chunk_size d <> [] ->
  stdout_write e = WrErr ->
  dispatch m e m s =
  mkRes Break (mkState false (fds s) (reaped s))
    [EvRead m chunk_size (RdData (take_chunk chunk_size d));
     EvWrite stdout_fileno (take_chunk chunk_size d) WrErr].
Proof.
  intros Hm Hd Hw. unfold dispatch. rewrite Z.eqb_refl, Hm, Hw.
  unfold os_read. destruct (take_chunk chunk_size d) as [|x c];
    [congruence | reflexivity].
Qed.

(** When serving the master descriptor leaves the [for] loop, the pass
    serves nothing else. *)
Lemma relay_once_master_break m p e s ready l :
  sigterm e = None -> select_res e = SelReady ready -> In m ready ->
  (forall s', dispatch m e m s' =
              mkRes Break (mkState false (fds s') (reaped s')) l) ->
  relay_once m p e s =
  mkRes (Ret tt) (mkState false [m; stdin_fileno] (reaped s))
    (EvSelect [m; stdin_fileno]
       (SelReady (List.filter (fun fd => existsb (Z.eqb fd) ready)
                    [m; stdin_fileno])) :: l).
Proof.
  intros Hs Hsel Hin Hd.
  rewrite (relay_once_select m p e s ready Hs Hsel).
  assert (Hex : existsb (Z.eqb m) ready = true).
  { apply existsb_exists. exists m. split; [exact Hin | apply Z.eqb_refl]. }
  cbn [List.filter]. rewrite Hex. cbn [for_each]. rewrite Hd. reflexivity.
Qed.

(** A pass whose first half leaves [child_alive] false is the last one:
    it still makes the check for the child's exit, and then the loop is
    over whatever the script holds next. *)
Lemma last_pass m p e rest s s1 l1 :
  p <> 0 -> child_alive s = true ->
  relay_once m p e s = mkRes (Ret tt) s1 l1 -> child_alive s1 = false ->
  let r := relay_loop m p (e :: rest) s in
  evs r = l1 ++ [EvWaitpid p WNOHANG
                   (if reaped s1 then WaitNoChild else liveness e)] /\
  out r <> Pending /\ child_alive (st r) = false.
Proof.
  intros Hp Ha Hr Hd. cbv zeta. cbn [relay_loop]. rewrite Ha.
  unfold loop_body. rewrite bind_run, Hr. cbn [out st evs].
  rewrite check_child_run by exact Hp.
  destruct (if reaped s1 then WaitNoChild else liveness e);
    cbn [out st evs after child_alive];
    try (repeat split; [discriminate]).
  destruct rest; cbn [relay_loop]; rewrite Hd; cbn [out st evs after];
    rewrite app_nil_r; repeat split; auto; discriminate.
Qed.

(** X4: end-of-stream on the master descriptor ends the loop with that
    pass: stdin is not served after it even when readable, the check for
    the child's exit is still made, and no further pass runs. *)
Theorem master_eof_ends_loop m p e rest s ready :
  p <> 0 -> child_alive s = true ->
  sigterm e = None -> select_res e = SelReady ready -> In m ready ->
  master_read e = RdData [] ->
  let r := relay_loop m p (e :: rest) s in
  evs r =
    [EvSelect [m; stdin_fileno]
       (SelReady (List.filter (fun fd => existsb (Z.eqb fd) ready)
                    [m; stdin_fileno]));
     EvRead m chunk_size (RdData []);
     EvWaitpid p WNOHANG (if reaped s then WaitNoChild else liveness e)] /\
  out r <> Pending /\ child_alive (st r) = false.
Proof.
  intros Hp Ha Hs Hsel Hin Hm.
  assert (Hr := relay_once_master_break m p e s ready _ Hs Hsel Hin
                  (fun s' => dispatch_master_eof m e s' Hm)).
  exact (last_pass m p e rest s _ _ Hp Ha Hr eq_refl).
Qed.

(** X4 at a pass in which stdin is readable too. *)
Lemma master_eof_ends_loop_witness :
  evs (relay_loop 3 4242 [pass_master_eof; pass_both_ways] entry_state) =
  [EvSelect [3; 0] (SelReady [3; 0]); EvRead 3 4096 (RdData []);
   EvWaitpid 4242 WNOHANG WaitNone].
Proof.
  apply (master_eof_ends_loop 3 4242 pass_master_eof [pass_both_ways]
           entry_state [3; 0]).
  - discriminate.
  - reflexivity.
  - reflexivity.
  - reflexivity.
  - simpl. auto.
  - reflexivity.
Defined.

(** X5: a failed write to stdout ends the loop in the same way: the
    chunk is dropped, stdin is not served in that pass, the check for the
    child's exit is made and no further pass runs. *)
Theorem stdout_write_error_ends_loop m p e rest s ready d :
  p <> 0 -> child_alive s = true ->
  sigterm e = None -> select_res e = SelReady ready -> In m ready ->
  master_read e = RdData d -> take_chunk chunk_size d <> [] ->
  stdout_write e = WrErr ->
  let r := relay_loop m p (e :: rest) s in
  evs r =
    [EvSelect [m; stdin_fileno]
       (SelReady (List.filter (fun fd => existsb (Z.eqb fd) ready)
                    [m; stdin_fileno]));
     EvRead m chunk_size (RdData (take_chunk chunk_size d));
     EvWrite stdout_fileno (take_chunk chunk_size d) WrErr;
     EvWaitpid p WNOHANG (if reaped s then WaitNoChild else liveness e)] /\
  out r <> Pending /\ child_alive (st r) = false.
Proof.
  intros Hp Ha Hs Hsel Hin Hm Hd Hw.
  assert (Hr := relay_once_master_break m p e s ready _ Hs Hsel Hin
                  (fun s' => dispatch_stdout_error m e s' d Hm Hd Hw)).
  exact (last_pass m p e rest s _ _ Hp Ha Hr eq_refl).
Qed.

(** X5 at a pass in which stdin is readable too. *)
Lemma stdout_write_error_ends_loop_witness :
  out (relay_loop 3 4242 [pass_stdout_write_fails; pass_both_ways]
         entry_state) <> Pending.
Proof.
  apply (stdout_write_error_ends_loop 3 4242 pass_stdout_write_fails
           [pass_both_ways] entry_state [3; 0] ["o"%byte]).
  - discriminate.
  - reflexivity.
  - reflexivity.
  - reflexivity.
  - simpl. auto.
  - reflexivity.
  - vm_compute. discriminate.
  - reflexivity.
Defined.

(** X6: when [select] raises, the loop is left at once: nothing is read
    or written, the check for the child's exit is skipped, [child_alive]
    is still set, and the cleanup follows, signalling the child. *)
Theorem select_failure_ends_loop m p e rest f s :
  child_alive s = true -> sigterm e = None ->
  select_res e = SelValueError \/ select_res e = SelOSError ->
  relay_loop m p (e :: rest) s =
    mkRes (Ret tt) (mkState true [m; stdin_fileno] (reaped s))
      [EvSelect [m; stdin_fileno] (select_res e)] /\
  evs (supervise m p (e :: rest) f s) =
    [EvSelect [m; stdin_fileno] (select_res e);
     EvClose m (close_res f);
     EvKill p SIGTERM (if reaped s then KillNoProcess else kill_res f);
     EvWaitpid p 0 (if reaped s then WaitNoChild else wait_res f)].
Proof.
  intros Ha Hs Hsel.
  assert (Hl : relay_loop m p (e :: rest) s =
               mkRes (Ret tt) (mkState true [m; stdin_fileno] (reaped s))
                 [EvSelect [m; stdin_fileno] (select_res e)]).
  { destruct s as [al fs rp]. cbn [child_alive] in Ha. subst al.
    cbn [relay_loop child_alive]. unfold loop_body, relay_once.
    rewrite Hs. destruct Hsel as [-> | ->]; reflexivity. }
  split; [exact Hl|].
  rewrite supervise_run, Hl. reflexivity.
Qed.

(** X6 at a failed [select]. *)
Lemma select_failure_ends_loop_witness :
  evs (supervise 3 4242 [pass_select_fails; pass_both_ways] final_killed
         entry_state) =
  [EvSelect [3; 0] SelOSError; EvClose 3 CloseOk;
   EvKill 4242 SIGTERM KillOk; EvWaitpid 4242 0 (WaitStatus SIGTERM)].
Proof.
  apply (select_failure_ends_loop 3 4242 pass_select_fails [pass_both_ways]
           final_killed entry_state).
  - reflexivity.
  - reflexivity.
  - right. reflexivity.
Defined.

(** X7: when the loop's check finds the child ended otherwise than by a
    normal exit, the supervisor exits with code 1, whatever the cleanup's
    calls answer. *)
Theorem abnormal_exit_in_loop_gives_1 m p envs f s status :
  p <> 0 -> WIFEXITED status = false ->
  let r := supervise m p envs f s in
  In (EvWaitpid p WNOHANG (WaitStatus status)) (evs r) ->
  out r = Raise (SystemExit 1) /\ exit_code (out r) = Some 1.
Proof.
  intros Hp Hw r Hin. apply statuses_In in Hin.
  destruct (supervise_spec m p envs f s Hp)
    as [E|(o & st' & E & _ & _ & Hout)];
    fold r in E; rewrite E in Hin; [destruct Hin|].
  destruct Hin as [Hin|[]]. inversion Hin; subst o st'.
  fold r in Hout. rewrite (Hout eq_refl). unfold status_code. rewrite Hw.
  split; reflexivity.
Qed.

(** X7 at a child killed by signal 9. *)
Lemma abnormal_exit_in_loop_gives_1_witness :
  exit_code (out (supervise 3 4242 [pass_child_killed] final_killed
                    entry_state)) = Some 1.
Proof.
  apply (abnormal_exit_in_loop_gives_1 3 4242 [pass_child_killed]
           final_killed entry_state 9).
  - discriminate.
  - reflexivity.
  - vm_compute. auto.
Defined.

Lemma select_step_ok m p e s ready :
  select_res e = SelReady ready -> sigterm e <> Some KillNotPermitted ->
  let r := try_except
             (select_select p [m; stdin_fileno] (sigterm e) (select_res e))
             [cls_ValueError; cls_OSError] (fun _ => brk) s in
  out r = Ret (List.filter (fun fd => existsb (Z.eqb fd) ready)
                 [m; stdin_fileno]) /\
  fds (st r) = fds s /\ reaped (st r) = reaped s.
Proof.
  intros Hsel Hs. rewrite Hsel. destruct s as [al fs rp].
  destruct (sigterm e) as [[]|], rp; try congruence; run_script; auto.
Qed.

(** X9: in a pass in which [select] returns, no outcome of the reads and
    writes (data, end-of-stream, errors) keeps the pass from checking for
    the child's exit: the non-blocking wait is its last call. *)
Theorem served_pass_checks_child m p e s ready :
  p <> 0 -> select_res e = SelReady ready ->
  sigterm e <> Some KillNotPermitted ->
  out (relay_once m p e s) = Ret tt /\
  evs (loop_body m p e s) =
  evs (relay_once m p e s) ++
  [EvWaitpid p WNOHANG (if reaped s then WaitNoChild else liveness e)].
Proof.
  intros Hp Hsel Hs.
  assert (Ho : out (relay_once m p e s) = Ret tt).
  { unfold relay_once. rewrite bind_run.
    cbn [set_fds out st evs after]. rewrite bind_run.
    set (s0 := mkState (child_alive s) [m; stdin_fileno] (reaped s)).
    destruct (select_step_ok m p e s0 ready Hsel Hs) as (Hr & Hf & _).
    rewrite Hr. cbn [out after].
    apply for_each_readable_ends. rewrite Hf. reflexivity. }
  split; [exact Ho|].
  rewrite (loop_body_checks m p e s Hp Ho).
  destruct (calm_relay_once m p e s) as (_ & _ & -> & _). reflexivity.
Qed.

(** X9 at a pass in which the first read already fails. *)
Lemma served_pass_checks_child_witness :
  evs (loop_body 3 4242 pass_all_io_fails entry_state) =
  [EvSelect [3; 0] (SelReady [3; 0]); EvRead 3 4096 RdErr;
   EvWaitpid 4242 WNOHANG WaitNone].
Proof.
  destruct (served_pass_checks_child 3 4242 pass_all_io_fails entry_state
              [3; 0]) as (_ & H).
  - discriminate.
  - reflexivity.
  - discriminate.
  - rewrite H. vm_compute. reflexivity.
Defined.

(** X10: when the handler's [os.kill] is refused, the handler raises
    before it clears [child_alive]; the [PermissionError] surfaces in
    [select], whose [except] clause leaves the loop: the loop ends with
    [child_alive] still set and nothing relayed in that pass. *)
Theorem refused_relay_ends_loop m p e rest s :
  child_alive s = true -> reaped s = false ->
  sigterm e = Some KillNotPermitted ->
  sigterm_handler p SIGTERM KillNotPermitted s =
    mkRes (Raise PermissionError) s [EvKill p SIGTERM KillNotPermitted] /\
  relay_loop m p (e :: rest) s =
    mkRes (Ret tt) (mkState true [m; stdin_fileno] false)
      [EvSigterm; EvKill p SIGTERM KillNotPermitted].
Proof.
  intros Ha Hr Hs. destruct s as [al fs rp].
  cbn [child_alive reaped] in *. subst al rp.
  split; [reflexivity|].
  cbn [relay_loop child_alive]. unfold loop_body, relay_once.
  rewrite Hs. destruct (select_res e); reflexivity.
Qed.

(** X10 at a pass in which both descriptors would be readable. *)
Lemma refused_relay_ends_loop_witness :
  relay_loop 3 4242 [pass_sigterm_refused; pass_both_ways] entry_state =
  mkRes (Ret tt) (mkState true [3; 0] false)
    [EvSigterm; EvKill 4242 SIGTERM KillNotPermitted].
Proof.
  apply (refused_relay_ends_loop 3 4242 pass_sigterm_refused
           [pass_both_ways] entry_state); reflexivity.
Defined.

(** X11: the parent closes its copy of the slave descriptor before the
    [try] statement.  When that close fails, [main] ends with the
    exception: the handler is not installed, the master descriptor stays
    open, the child is neither signalled nor waited for, and the exit
    code is 1.  When it succeeds, the run is the close, the installation
    of the handler and the [try] statement entered with [child_alive]
    set. *)
Theorem slave_close_failure_skips_cleanup master_fd slave_fd pid environ x
    envs f :
  pid <> 0 ->
  main master_fd slave_fd pid environ x CloseErr envs f =
    MainParent
      (mkRes (Raise OSError) boot_state [EvClose slave_fd CloseErr]) /\
  exit_code (@Raise unit OSError) = Some 1 /\
  main master_fd slave_fd pid environ x CloseOk envs f =
    MainParent
      (after [EvClose slave_fd CloseOk; EvSignalInstall SIGTERM]
         (supervise master_fd pid envs f entry_state)).
Proof.
  intros Hp. apply Z.eqb_neq in Hp. unfold main. rewrite Hp.
  repeat split.
Qed.

(** X11 at a parent whose child is 4242. *)
Lemma slave_close_failure_skips_cleanup_witness :
  main 3 4 4242 ∅ ExecReplaced CloseErr [pass_both_ways] final_killed =
  MainParent (mkRes (Raise OSError) boot_state [EvClose 4 CloseErr]).
Proof.
  apply (slave_close_failure_skips_cleanup 3 4 4242 ∅ ExecReplaced
           [pass_both_ways] final_killed).
  discriminate.
Defined.

(** X12: sanitising the environment twice is sanitising it once, and
    the variables of the child's environment are those of the parent's
    without [CLAUDECODE] and with [TERM]; when the parent has no
    [CLAUDECODE] nothing is removed. *)
Theorem child_env_idempotent (environ : gmap string string) :
  child_env (child_env environ) = child_env environ /\
  dom (child_env environ) = {["TERM"]} ∪ (dom environ ∖ {["CLAUDECODE"]}) /\
  (environ !! "CLAUDECODE" = None ->
   child_env environ = <["TERM" := "dumb"]> environ).
Proof.
  unfold child_env. repeat split.
  - apply map_eq. intros k.
    destruct (decide (k = "TERM")) as [->|Ht].
    + rewrite !lookup_insert_eq. reflexivity.
    + rewrite !lookup_insert_ne by congruence.
      destruct (decide (k = "CLAUDECODE")) as [->|Hc].
      * rewrite !lookup_delete_eq. reflexivity.
      * rewrite !lookup_delete_ne by congruence.
        rewrite lookup_insert_ne by congruence.
        rewrite lookup_delete_ne by congruence. reflexivity.
  - rewrite dom_insert_L, dom_delete_L. reflexivity.
  - intros Hn. rewrite delete_id by exact Hn. reflexivity.
Qed.

(** X12 at an environment without [CLAUDECODE]. *)
Lemma child_env_idempotent_witness :
  child_env {[ "PATH" := "/bin" ]} = <["TERM" := "dumb"]> {[ "PATH" := "/bin" ]}.
Proof.
  destruct (child_env_idempotent {[ "PATH" := "/bin" ]}) as (_ & _ & H).
  apply H. reflexivity.
Defined.

Lemma tame_refl m p s : tame m p s s [].
Proof. constructor. Qed.

Lemma tame_trans m p s1 s2 s3 l1 l2 :
  tame m p s1 s2 l1 -> tame m p s2 s3 l2 -> tame m p s1 s3 (l1 ++ l2).
Proof. unfold tame. intros H1 H2. apply Forall_app. auto. Qed.

Ltac tame_step m p :=
  lazymatch goal with
  | |- keeps _ (try_finally _ _) =>
      apply keeps_try_finally; [exact (tame_trans m p) | |]
  | |- keeps _ (_ ≫= _) =>
      apply keeps_bind; [exact (tame_trans m p) | | intros ?]
  | |- keeps _ (try_except _ _ _) =>
      apply keeps_try_except; [exact (tame_trans m p) | | intros ?]
  | |- keeps _ (for_each _ _) =>
      apply keeps_for_each;
      [exact (tame_refl m p) | exact (tame_trans m p) | intros ?]
  | |- keeps _ (if ?b then _ else _) => destruct b eqn:?
  | |- keeps _ (match ?x with _ => _ end) => destruct x
  end.

(** A single call, or none. *)
Ltac tame_call :=
  let s := fresh "s" in
  intros s; destruct s as [? ? []]; unfold tame;
  repeat match goal with
         | |- context [os_read _ _ ?a] => is_var a; destruct a
         | |- context [os_write _ _ ?a] => is_var a; destruct a
         | |- context [os_kill _ _ ?a] => is_var a; destruct a
         | |- context [os_close _ ?a] => is_var a; destruct a
         | |- context [os_waitpid _ _ ?a] => is_var a; destruct a
         | |- context [fds_remove ?x ?s] =>
             unfold fds_remove; destruct (list_remove x (fds s))
         end;
  run_script;
  repeat match goal with |- Forall _ _ => constructor end;
  cbn [call_ok]; auto.

Lemma tame_relay_loop m p envs : keeps (tame m p) (relay_loop m p envs).
Proof.
  assert (Hbody : forall e, keeps (tame m p) (loop_body m p e)).
  { intros [sg sel mr sw sr mw lv].
    unfold loop_body, relay_once, check_child, select_select,
      sigterm_handler, dispatch.
    cbn [sigterm select_res master_read stdout_write stdin_read
         master_write liveness].
    repeat tame_step m p; tame_call. }
  induction envs as [|e envs IH]; intros s; simpl.
  - destruct (child_alive s); apply tame_refl.
  - destruct (child_alive s); [|apply tame_refl].
    specialize (Hbody e s).
    destruct (loop_body m p e s) as [o s1 l1]. cbn [out st evs] in *.
    destruct o; cbn [out st evs after]; try exact Hbody;
      (eapply tame_trans; [exact Hbody | apply IH]).
Qed.

(** X13: once in the [try] statement the supervisor signals and waits
    for its own child only, and only with SIGTERM; it reads the master
    descriptor and stdin only, asking for [chunk_size] bytes; it writes to
    stdout and the master descriptor only; and it closes nothing but the
    master descriptor. *)
Theorem calls_stay_on_child_and_descriptors m p envs f s ev :
  In ev (evs (supervise m p envs f s)) -> call_ok m p ev.
Proof.
  assert (H : keeps (tame m p) (supervise m p envs f)).
  { destruct f as [cr kr wr]. unfold supervise, cleanup.
    cbn [close_res kill_res wait_res].
    repeat tame_step m p; auto using tame_relay_loop; tame_call. }
  specialize (H s). unfold tame in H. rewrite Forall_forall in H.
  intros Hin. apply H. apply list_elem_of_In. exact Hin.
Qed.

(** X13 at the SIGTERM the cleanup sends. *)
Lemma calls_stay_on_child_and_descriptors_witness :
  call_ok 3 4242 (EvKill 4242 SIGTERM KillOk).
Proof.
  apply (calls_stay_on_child_and_descriptors 3 4242 [pass_sigterm]
           final_killed entry_state).
  vm_compute. auto 10.
Defined.

